(** * PTA / CFR simulator: a shallow embedding of the numerical core of app.py

    The four core functions of [app.py] are embedded here:
    [calculate_ft_mic], [calculate_lognormal_params],
    [monte_carlo_simulation] and [calculate_cfr].

    Modelling conventions.
    - Python floats are read as mathematical reals ([R]); rounding, overflow,
      infinities and NaN are outside the model.
    - Python exceptions are explicit: a computation returns [Ok v] or
      [Raise e].  [math.log], [math.sqrt] and [/] raise exactly where CPython
      does on real-valued arguments.
    - [numpy.random.lognormal] reads and advances a global generator; the
      generator state is threaded explicitly and survives an exception.
    - A Python [dict] is an insertion-ordered association list. *)

From Stdlib Require Import Reals Lra Lia List Ascii String ZArith.
Import ListNotations.
Local Open Scope R_scope.

(** ** Python exceptions and the partial operations of [math] *)

Inductive exn : Type :=
  | ValueError
  | ZeroDivisionError
  | TypeError
  | KeyError.

Inductive result (A : Type) : Type :=
  | Ok (a : A)
  | Raise (e : exn).

Arguments Ok {A} a.
Arguments Raise {A} e.

Definition rbind {A B : Type} (c : result A) (k : A -> result B) : result B :=
  match c with
  | Ok a => k a
  | Raise e => Raise e
  end.

Declare Scope py_scope.
Delimit Scope py_scope with py.
Notation "x <- c ;; k" := (rbind c (fun x => k))
  (at level 61, c at next level, right associativity) : py_scope.

Module Py.

(** [math.log x]: ValueError unless [0 < x]. *)
Definition log (x : R) : result R :=
  if Rlt_dec 0 x then Ok (ln x) else Raise ValueError.

(** [math.sqrt x]: ValueError on a negative argument. *)
Definition sqrt (x : R) : result R :=
  if Rle_dec 0 x then Ok (R_sqrt.sqrt x) else Raise ValueError.

(** [a / b]: ZeroDivisionError when the divisor is zero. *)
Definition div (a b : R) : result R :=
  if Req_dec_T b 0 then Raise ZeroDivisionError else Ok (a / b).

(** [max(a, b)] keeps its first argument unless the second is strictly
    greater. *)
Definition max (a b : R) : R :=
  if Rlt_dec a b then b else a.

End Py.

(** ** Exposure model: [calculate_ft_mic] *)

(** The function returns either a float or a message. *)
Inductive ft_value : Type :=
  | FtNum (r : R)
  | FtStr (s : string).

Definition invalid_parameters : string :=
  "Invalid parameters. Please check your inputs."%string.

(** The body of the [try] block. *)
Definition ft_mic_try (dose fu vd mic clt di : R) : result R :=
  (q <- Py.div (dose * fu) (vd * mic) ;;
   term1 <- Py.log q ;;
   term2 <- Py.div vd clt ;;
   term3 <- Py.div 100 di ;;
   let ft_mic := term1 * term2 * term3 in
   Ok (Py.max ft_mic 0))%py.

(** [except (ValueError, ZeroDivisionError)]: any other exception escapes. *)
Definition calculate_ft_mic (dose fu vd mic clt di : R) : result ft_value :=
  match ft_mic_try dose fu vd mic clt di with
  | Ok r => Ok (FtNum r)
  | Raise ValueError => Ok (FtStr invalid_parameters)
  | Raise ZeroDivisionError => Ok (FtStr invalid_parameters)
  | Raise e => Raise e
  end.

(** ** Lognormal parameter converter: [calculate_lognormal_params] *)

Definition calculate_lognormal_params (mean std : R) : result (R * R) :=
  (let variance := std ^ 2 in
   root <- Py.sqrt (variance + mean ^ 2) ;;
   ratio <- Py.div (mean ^ 2) root ;;
   mu <- Py.log ratio ;;
   frac <- Py.div variance (mean ^ 2) ;;
   lg <- Py.log (1 + frac) ;;
   sigma <- Py.sqrt lg ;;
   Ok (mu, sigma))%py.

(** ** Python dictionaries

    Insertion-ordered association lists; a key occurs at most once in a
    dictionary built with [dict_set] from the empty one. *)

Section Dict.
Context {K V : Type}.
Variable K_eq_dec : forall x y : K, {x = y} + {x <> y}.

(** [d.get(k)] *)
Fixpoint dict_get (k : K) (d : list (K * V)) : option V :=
  match d with
  | [] => None
  | (k', v) :: t => if K_eq_dec k' k then Some v else dict_get k t
  end.

(** [d[k]]: KeyError on a missing key. *)
Definition dict_item (k : K) (d : list (K * V)) : result V :=
  match dict_get k d with
  | Some v => Ok v
  | None => Raise KeyError
  end.

(** [d[k] = v]: an existing key keeps its position, a new one goes last. *)
Fixpoint dict_set (k : K) (v : V) (d : list (K * V)) : list (K * V) :=
  match d with
  | [] => [(k, v)]
  | (k', v') :: t =>
      if K_eq_dec k' k then (k', v) :: t else (k', v') :: dict_set k v t
  end.

(** [d.get(k, default)] *)
Definition dict_get_default (k : K) (d : list (K * V)) (default : V) : V :=
  match dict_get k d with
  | Some v => v
  | None => default
  end.

(** [list(d.keys())] *)
Definition dict_keys (d : list (K * V)) : list K := map fst d.

End Dict.

(** A regimen is the pair (dose, interval); a result row is
    (dose, interval, pta). *)
Definition regimen : Type := R * R.
Definition row : Type := R * R * R.

Definition regimen_of (r : row) : regimen :=
  let '(dose, di, _) := r in (dose, di).

Definition pta_of (r : row) : R :=
  let '(_, _, pta) := r in pta.

Definition regimen_eq_dec (x y : regimen) : {x = y} + {x <> y}.
Proof.
  destruct x as [a b], y as [c d].
  destruct (Req_dec_T a c) as [-> | Ha].
  - destruct (Req_dec_T b d) as [-> | Hb].
    + left; reflexivity.
    + right; intros E; apply Hb; injection E; auto.
  - right; intros E; apply Ha; injection E; auto.
Defined.

(** Loops whose body may raise. *)
Fixpoint rfold {A B : Type} (body : B -> A -> result B) (l : list A) (acc : B)
  : result B :=
  match l with
  | [] => Ok acc
  | x :: t => (acc' <- body acc x ;; rfold body t acc')%py
  end.

(** ** Response aggregator: [calculate_cfr] *)

(** The body of the inner loop, for the row [(dose, di, pta)] of [mic]. *)
Definition cfr_row (mic_distribution : list (R * R)) (mic : R)
    (cfr_results : list (regimen * R)) (r : row) : result (list (regimen * R)) :=
  let '(dose, di, pta) := r in
  let cfr_results :=
    match dict_get regimen_eq_dec (dose, di) cfr_results with
    | None => dict_set regimen_eq_dec (dose, di) 0 cfr_results
    | Some _ => cfr_results
    end in
  (old <- dict_item regimen_eq_dec (dose, di) cfr_results ;;
   Ok (dict_set regimen_eq_dec (dose, di)
         (old + pta * dict_get_default Req_dec_T mic mic_distribution 0)
         cfr_results))%py.

Definition calculate_cfr (results : list (R * list row))
    (mic_distribution : list (R * R)) : result (list (regimen * R)) :=
  rfold (fun cfr_results '(mic, combinations) =>
           rfold (cfr_row mic_distribution mic) combinations cfr_results)
        results [].

(** *** The aggregate as the specification words it

    [weight] is the share of a threshold in the susceptibility distribution,
    [attainment] the percentage reported for a regimen in the list of one
    threshold, and [score] the weighted sum over the thresholds of the
    attainment results. *)

Definition weight (mic_distribution : list (R * R)) (mic : R) : R :=
  dict_get_default Req_dec_T mic mic_distribution 0.

Fixpoint attainment (reg : regimen) (rows : list row) : option R :=
  match rows with
  | [] => None
  | r :: t =>
      if regimen_eq_dec (regimen_of r) reg then Some (pta_of r)
      else attainment reg t
  end.

Definition score_term (mic_distribution : list (R * R)) (reg : regimen)
    (kv : R * list row) : R :=
  match attainment reg (snd kv) with
  | Some pta => pta * weight mic_distribution (fst kv)
  | None => 0
  end.

Definition score (results : list (R * list row))
    (mic_distribution : list (R * R)) (reg : regimen) : R :=
  fold_right Rplus 0 (map (score_term mic_distribution reg) results).

(** What the loops add up for a regimen: every row of that regimen counts,
    also when a list names the regimen more than once. *)
Definition rows_sum (w : R) (reg : regimen) (rows : list row) : R :=
  fold_right Rplus 0
    (map (fun r => if regimen_eq_dec (regimen_of r) reg then pta_of r * w else 0)
         rows).

Definition results_sum (mic_distribution : list (R * R)) (reg : regimen)
    (results : list (R * list row)) : R :=
  fold_right Rplus 0
    (map (fun kv => rows_sum (weight mic_distribution (fst kv)) reg (snd kv))
         results).

(** The regimens named anywhere in the results. *)
Definition all_regimens (results : list (R * list row)) : list regimen :=
  flat_map (fun kv => map regimen_of (snd kv)) results.

(** ** Monte Carlo engine: [monte_carlo_simulation] *)

(** [ft_mic >= target]: a float compares with the target, a [str] does not
    (Python 3 raises TypeError for [str >= float]). *)
Definition py_ge (ft_mic : ft_value) (target : R) : result bool :=
  match ft_mic with
  | FtNum r => Ok (if Rle_dec target r then true else false)
  | FtStr _ => Raise TypeError
  end.

(** Outcome of one patient whose three parameters are already drawn. *)
Definition meets_target (dose di mic target fu vd clt : R) : result bool :=
  (ft_mic <- calculate_ft_mic dose fu vd mic clt di ;;
   py_ge ft_mic target)%py.

Declare Scope mc_scope.
Delimit Scope mc_scope with mc.

Section Engine.

(** The generator state and [np.random.lognormal(mean, sigma)]. *)
Variable rng : Type.
Variable lognormal : R -> R -> rng -> R * rng.

(** Computations that read the generator and may raise; the generator state
    is kept when they raise. *)
Definition M (A : Type) : Type := rng -> result A * rng.

Definition ret {A : Type} (a : A) : M A := fun s => (Ok a, s).

Definition bind {A B : Type} (c : M A) (k : A -> M B) : M B :=
  fun s =>
    match c s with
    | (Ok a, s') => k a s'
    | (Raise e, s') => (Raise e, s')
    end.

Definition lift {A : Type} (c : result A) : M A := fun s => (c, s).

Notation "x <- c ;; k" := (bind c (fun x => k))
  (at level 61, c at next level, right associativity) : mc_scope.

(** [max(np.random.lognormal(mean=mu, sigma=sigma), 0)] *)
Definition draw (mu sigma : R) : M R :=
  fun s => let (x, s') := lognormal mu sigma s in (Ok (Py.max x 0), s').

Section Loops.
Variables fu_mu fu_sigma vd_mu vd_sigma clt_mu clt_sigma : R.
Variable dose_intervals : list regimen.
Variable num_patients : Z.
Variable target : R.

(** One iteration of [for _ in range(num_patients)]. *)
Definition patient (dose di mic : R) (success_count : nat) : M nat :=
  (fu <- draw fu_mu fu_sigma ;;
   vd <- draw vd_mu vd_sigma ;;
   clt <- draw clt_mu clt_sigma ;;
   hit <- lift (meets_target dose di mic target fu vd clt) ;;
   ret (if hit : bool then S success_count else success_count))%mc.

Fixpoint patients_loop (n : nat) (dose di mic : R) (success_count : nat)
  : M nat :=
  match n with
  | O => ret success_count
  | S n' =>
      (success_count' <- patient dose di mic success_count ;;
       patients_loop n' dose di mic success_count')%mc
  end.

(** The three clamped draws of one patient, in the order the loop makes
    them, and the draws of [n] consecutive patients. *)
Definition draw_patient (s : rng) : (R * R * R) * rng :=
  let (fu, s1) := lognormal fu_mu fu_sigma s in
  let (vd, s2) := lognormal vd_mu vd_sigma s1 in
  let (clt, s3) := lognormal clt_mu clt_sigma s2 in
  ((Py.max fu 0, Py.max vd 0, Py.max clt 0), s3).

Fixpoint cohort (n : nat) (s : rng) : list (R * R * R) * rng :=
  match n with
  | O => ([], s)
  | S n' =>
      let (p, s1) := draw_patient s in
      let (ps, s2) := cohort n' s1 in
      (p :: ps, s2)
  end.

(** Patients of a cohort whose exposure is a number not below the
    target. *)
Definition hit (dose di mic : R) (p : R * R * R) : bool :=
  let '(fu, vd, clt) := p in
  match meets_target dose di mic target fu vd clt with
  | Ok b => b
  | Raise _ => false
  end.

Definition successes (dose di mic : R) (ps : list (R * R * R)) : nat :=
  List.length (filter (hit dose di mic) ps).

(** [results[mic].append(x)] *)
Definition append_row (mic : R) (x : row) (results : list (R * list row))
  : result (list (R * list row)) :=
  (combinations <- dict_item Req_dec_T mic results ;;
   Ok (dict_set Req_dec_T mic (combinations ++ [x]) results))%py.

(** One iteration of [for dose, di in dose_intervals]. *)
Definition regimen_body (mic : R) (results : list (R * list row))
    (dose_di : regimen) : M (list (R * list row)) :=
  let '(dose, di) := dose_di in
  (success_count <- patients_loop (Z.to_nat num_patients) dose di mic 0 ;;
   ratio <- lift (Py.div (INR success_count) (IZR num_patients)) ;;
   let pta := ratio * 100 in
   lift (append_row mic (dose, di, pta) results))%mc.

Fixpoint regimens_loop (l : list regimen) (mic : R)
    (results : list (R * list row)) : M (list (R * list row)) :=
  match l with
  | [] => ret results
  | dose_di :: t =>
      (results' <- regimen_body mic results dose_di ;;
       regimens_loop t mic results')%mc
  end.

(** [for mic in mics] *)
Fixpoint mics_loop (mics : list R) (results : list (R * list row))
  : M (list (R * list row)) :=
  match mics with
  | [] => ret results
  | mic :: t =>
      (results' <- regimens_loop dose_intervals mic
                     (dict_set Req_dec_T mic [] results) ;;
       mics_loop t results')%mc
  end.

End Loops.

Definition monte_carlo_simulation (dose_intervals : list regimen)
    (fu_mean fu_std vd_mean vd_std clt_mean clt_std : R)
    (mics : list R) (num_patients : Z) (target : R)
  : M (list (R * list row)) :=
  (fu <- lift (calculate_lognormal_params fu_mean fu_std) ;;
   vd <- lift (calculate_lognormal_params vd_mean vd_std) ;;
   clt <- lift (calculate_lognormal_params clt_mean clt_std) ;;
   mics_loop (fst fu) (snd fu) (fst vd) (snd vd) (fst clt) (snd clt)
     dose_intervals num_patients target mics [])%mc.

End Engine.

Arguments ret {rng A} a _.
Arguments bind {rng A B} c k _.
Arguments lift {rng A} c _.

(** A reported row carries a percentage. *)
Definition row_in_range (r : row) : Prop := 0 <= pta_of r <= 100.

(** A dictionary entry whose list has one in-range row per regimen, in the
    order of [dose_intervals]. *)
Definition rows_ok (dose_intervals : list regimen) (kv : R * list row) : Prop :=
  map regimen_of (snd kv) = dose_intervals /\ Forall row_in_range (snd kv).

(** A concrete generator: a tape of standard-normal deviates.  A lognormal
    draw is [exp (mu + sigma * z)] for the next deviate [z]; an exhausted tape
    keeps giving the median [exp mu]. *)
Definition tape_lognormal (mu sigma : R) (tape : list R) : R * list R :=
  match tape with
  | [] => (exp mu, [])
  | z :: t => (exp (mu + sigma * z), t)
  end.

(** ** The caller: the parts of [main] around the two core calls *)

(** The "Add Regimen" button:
    [if regimen not in dose_intervals: dose_intervals.append(regimen)]. *)
Definition add_regimen (new_regimen : regimen) (dose_intervals : list regimen)
  : list regimen :=
  if in_dec regimen_eq_dec new_regimen dose_intervals
  then dose_intervals
  else dose_intervals ++ [new_regimen].

(** The "Run Simulation" button: the simulation, then the aggregation of its
    results. *)
Definition run_simulation (rng : Type) (lognormal : R -> R -> rng -> R * rng)
    (dose_intervals : list regimen)
    (fu_mean fu_std vd_mean vd_std clt_mean clt_std : R)
    (mics : list R) (num_patients : Z) (target : R)
    (mic_distribution : list (R * R))
  : M rng (list (R * list row) * list (regimen * R)) :=
  bind (monte_carlo_simulation rng lognormal dose_intervals
          fu_mean fu_std vd_mean vd_std clt_mean clt_std mics num_patients target)
       (fun results =>
          bind (lift (calculate_cfr results mic_distribution))
               (fun cfr_results => ret (results, cfr_results))).

(** The cell of the PTA table and of the CSV export:
    [next((pta for d, i, pta in results[mic] if d == dose and i == di), None)];
    [results[mic]] raises KeyError on a missing threshold. *)
Definition pta_val (results : list (R * list row)) (mic : R) (reg : regimen)
  : result (option R) :=
  (rows <- dict_item Req_dec_T mic results ;;
   Ok (attainment reg rows))%py.


(** *** Parsing the two text inputs of the sidebar *)

(** [s.split(sep)] for a one-character separator: every occurrence splits,
    so the result has one more piece than there are separators. *)
Fixpoint py_split (sep : Ascii.ascii) (s : string) : list string :=
  match s with
  | EmptyString => [EmptyString]
  | String c rest =>
      if Ascii.ascii_dec c sep then EmptyString :: py_split sep rest
      else
        match py_split sep rest with
        | [] => [String c EmptyString]
        | piece :: pieces => String c piece :: pieces
        end
  end.

(** A list comprehension whose element expression may raise. *)
Fixpoint rmap {A B : Type} (f : A -> result B) (l : list A) : result (list B) :=
  match l with
  | [] => Ok []
  | x :: t => (y <- f x ;; ys <- rmap f t ;; Ok (y :: ys))%py
  end.

Section Parsing.

(** [float(x.strip())]: the conversion of a piece of text to a float is not
    modelled; it is a parameter of the two parsers. *)
Variable float_strip : string -> result R.

(** [[float(x.strip()) for x in mics_input.split(",")]] *)
Definition parse_mic_list (mics_input : string) : result (list R) :=
  rmap float_strip (py_split ","%char mics_input).

(** The body of [for pair in pairs]:
    [mic_key, fraction = pair.split(":")] needs exactly two pieces, and the
    assignment evaluates its right-hand side first. *)
Definition parse_pair (mic_distribution : list (R * R)) (pair : string)
  : result (list (R * R)) :=
  match py_split ":"%char pair with
  | [mic_key; fraction] =>
      (value <- float_strip fraction ;;
       key <- float_strip mic_key ;;
       Ok (dict_set Req_dec_T key value mic_distribution))%py
  | _ => Raise ValueError
  end.

(** The [try] block that builds [mic_distribution]; on any exception [main]
    reports the error and returns. *)
Definition parse_mic_distribution (mic_distribution_input : string)
  : result (list (R * R)) :=
  rfold parse_pair (py_split ","%char mic_distribution_input) [].

End Parsing.

(** A conversion that knows three pieces of text, for examples. *)
Definition example_float (x : string) : result R :=
  if string_dec x "1" then Ok 1
  else if string_dec x "0.25" then Ok (1 / 4)
  else if string_dec x "0.75" then Ok (3 / 4)
  else Raise ValueError.

(** ** Basic facts about the partial operations *)

Lemma py_max_Rmax (a b : R) : Py.max a b = Rmax a b.
Proof.
  unfold Py.max, Rmax.
  destruct (Rlt_dec a b), (Rle_dec a b); try reflexivity; lra.
Qed.

Lemma py_max_nonneg (a : R) : 0 <= Py.max a 0.
Proof. unfold Py.max. destruct (Rlt_dec a 0); lra. Qed.

Lemma py_max_mono (a b : R) : a <= b -> Py.max a 0 <= Py.max b 0.
Proof. unfold Py.max. intros H. destruct (Rlt_dec a 0), (Rlt_dec b 0); lra. Qed.

Lemma py_log_pos (x : R) : 0 < x -> Py.log x = Ok (ln x).
Proof. intros H. unfold Py.log. destruct (Rlt_dec 0 x); [reflexivity | lra]. Qed.

Lemma py_log_nonpos (x : R) : x <= 0 -> Py.log x = Raise ValueError.
Proof. intros H. unfold Py.log. destruct (Rlt_dec 0 x); [lra | reflexivity]. Qed.

Lemma py_sqrt_nonneg (x : R) : 0 <= x -> Py.sqrt x = Ok (R_sqrt.sqrt x).
Proof. intros H. unfold Py.sqrt. destruct (Rle_dec 0 x); [reflexivity | lra]. Qed.

Lemma py_div_nonzero (a b : R) : b <> 0 -> Py.div a b = Ok (a / b).
Proof. intros H. unfold Py.div. destruct (Req_dec_T b 0); [contradiction | reflexivity]. Qed.

Lemma py_div_zero (a : R) : Py.div a 0 = Raise ZeroDivisionError.
Proof. unfold Py.div. destruct (Req_dec_T 0 0); [reflexivity | contradiction]. Qed.

(** In [R] the quotient by zero is zero, so a positive quotient has a nonzero
    divisor. *)
Lemma pos_quotient_divisor (a b : R) : 0 < a / b -> b <> 0.
Proof.
  intros H Hb. subst b. unfold Rdiv in H. rewrite Rinv_0, Rmult_0_r in H. lra.
Qed.

(** ** The exposure model *)

Lemma ft_mic_try_ok (dose fu vd mic clt di : R) :
  0 < (dose * fu) / (vd * mic) -> clt <> 0 -> di <> 0 ->
  ft_mic_try dose fu vd mic clt di =
    Ok (Py.max (ln ((dose * fu) / (vd * mic)) * (vd / clt) * (100 / di)) 0).
Proof.
  intros Hq Hclt Hdi. unfold ft_mic_try.
  rewrite (py_div_nonzero _ _ (pos_quotient_divisor _ _ Hq)). cbn.
  rewrite (py_log_pos _ Hq). cbn.
  rewrite (py_div_nonzero _ _ Hclt). cbn.
  rewrite (py_div_nonzero _ _ Hdi). cbn.
  reflexivity.
Qed.

(** The [try] block raises nothing but the two exceptions that are caught. *)
Lemma ft_mic_try_cases (dose fu vd mic clt di : R) :
  (exists r, 0 <= r /\ ft_mic_try dose fu vd mic clt di = Ok r)
  \/ ft_mic_try dose fu vd mic clt di = Raise ValueError
  \/ ft_mic_try dose fu vd mic clt di = Raise ZeroDivisionError.
Proof.
  unfold ft_mic_try, Py.div, Py.log.
  destruct (Req_dec_T (vd * mic) 0); cbn; [auto |].
  destruct (Rlt_dec 0 (dose * fu / (vd * mic))); cbn; [| auto].
  destruct (Req_dec_T clt 0); cbn; [auto |].
  destruct (Req_dec_T di 0); cbn; [auto |].
  left. eexists. split; [apply py_max_nonneg | reflexivity].
Qed.

(** C1. For a regimen (dose, interval) with a nonzero interval (a regimen's
    interval is positive), a patient triple (fu, vd, clt) and a threshold mic,
    whenever the logarithm argument is positive and clt is nonzero, the
    exposure model returns the number
    max(ln((dose*fu)/(vd*mic)) * (vd/clt) * (100/interval), 0), and that
    number is non-negative. *)
Theorem calculate_ft_mic_formula (dose di fu vd clt mic : R) :
  di <> 0 ->
  0 < (dose * fu) / (vd * mic) ->
  clt <> 0 ->
  calculate_ft_mic dose fu vd mic clt di =
    Ok (FtNum (Rmax (ln ((dose * fu) / (vd * mic)) * (vd / clt) * (100 / di)) 0))
  /\ 0 <= Rmax (ln ((dose * fu) / (vd * mic)) * (vd / clt) * (100 / di)) 0.
Proof.
  intros Hdi Hq Hclt. unfold calculate_ft_mic.
  rewrite (ft_mic_try_ok _ _ _ _ _ _ Hq Hclt Hdi), py_max_Rmax.
  split; [reflexivity | apply Rmax_r].
Qed.

Lemma calculate_ft_mic_formula_witness :
  calculate_ft_mic 2000 1 10 2 5 24 =
    Ok (FtNum (Rmax (ln ((2000 * 1) / (10 * 2)) * (10 / 5) * (100 / 24)) 0))
  /\ 0 <= Rmax (ln ((2000 * 1) / (10 * 2)) * (10 / 5) * (100 / 24)) 0.
Proof.
  apply (calculate_ft_mic_formula 2000 24 1 10 5 2); lra.
Defined.

(** C9. On all real inputs the exposure model is total: it returns either a
    non-negative number or the fixed message; the logarithm-domain and
    division-by-zero failures are caught inside and no exception escapes. *)
Theorem calculate_ft_mic_total (dose fu vd mic clt di : R) :
  (exists r, 0 <= r /\ calculate_ft_mic dose fu vd mic clt di = Ok (FtNum r))
  \/ calculate_ft_mic dose fu vd mic clt di =
       Ok (FtStr "Invalid parameters. Please check your inputs.").
Proof.
  unfold calculate_ft_mic.
  destruct (ft_mic_try_cases dose fu vd mic clt di) as [(r & Hr & E) | [E | E]];
    rewrite E.
  - left. exists r. split; [exact Hr | reflexivity].
  - right. reflexivity.
  - right. reflexivity.
Qed.

(** ** The lognormal parameter converter *)

Lemma square_sum_pos (mean std : R) : mean <> 0 -> 0 < std ^ 2 + mean ^ 2.
Proof. intros H. nra. Qed.

(** The converter succeeds on every nonzero mean, whatever its sign. *)
Lemma calculate_lognormal_params_nonzero (mean std : R) :
  mean <> 0 ->
  calculate_lognormal_params mean std =
    Ok (ln (mean ^ 2 / sqrt (std ^ 2 + mean ^ 2)),
        sqrt (ln (1 + std ^ 2 / mean ^ 2))).
Proof.
  intros Hm. unfold calculate_lognormal_params.
  pose proof (square_sum_pos mean std Hm) as Hs.
  assert (Hm2 : 0 < mean ^ 2) by nra.
  pose proof (sqrt_lt_R0 _ Hs) as Hroot.
  rewrite py_sqrt_nonneg by lra. cbn [rbind].
  rewrite py_div_nonzero by lra. cbn [rbind].
  rewrite py_log_pos by (apply Rdiv_lt_0_compat; assumption). cbn [rbind].
  rewrite py_div_nonzero by lra. cbn [rbind].
  assert (Hfrac : 0 <= std ^ 2 / mean ^ 2).
  { apply Rmult_le_pos; [nra | left; apply Rinv_0_lt_compat; assumption]. }
  rewrite py_log_pos by lra. cbn [rbind].
  rewrite py_sqrt_nonneg; [reflexivity |].
  rewrite <- ln_1. destruct Hfrac as [Hlt | Heq].
  - left. apply ln_increasing; lra.
  - rewrite <- Heq, Rplus_0_r. right; reflexivity.
Qed.

(** A zero mean makes the converter itself raise. *)
Lemma calculate_lognormal_params_zero (std : R) :
  calculate_lognormal_params 0 std =
    Raise (if Req_dec_T std 0 then ZeroDivisionError else ValueError).
Proof.
  unfold calculate_lognormal_params.
  replace (std ^ 2 + 0 ^ 2) with (std ^ 2) by ring.
  replace (0 ^ 2) with 0 by ring.
  rewrite py_sqrt_nonneg by nra. cbn [rbind].
  destruct (Req_dec_T std 0) as [-> | Hs].
  - replace (0 ^ 2) with 0 by ring. rewrite sqrt_0, py_div_zero. reflexivity.
  - assert (0 < sqrt (std ^ 2)) by (apply sqrt_lt_R0; nra).
    rewrite py_div_nonzero by lra. cbn [rbind].
    rewrite py_log_nonpos; [reflexivity |].
    unfold Rdiv. rewrite Rmult_0_l. lra.
Qed.

(** The converter reads the mean only through its square. *)
Lemma calculate_lognormal_params_opp (mean std : R) :
  calculate_lognormal_params (- mean) std = calculate_lognormal_params mean std.
Proof.
  unfold calculate_lognormal_params.
  replace ((- mean) ^ 2) with (mean ^ 2) by ring. reflexivity.
Qed.

(** C3. For mean > 0 and std >= 0 the converter returns exactly
    mu = ln(mean^2 / sqrt(std^2 + mean^2)) and
    sigma = sqrt(ln(1 + std^2 / mean^2)); with std = 0 it returns
    mu = ln(mean) and sigma = 0. *)
Theorem calculate_lognormal_params_formula (mean std : R) :
  0 < mean -> 0 <= std ->
  calculate_lognormal_params mean std =
    Ok (ln (mean ^ 2 / sqrt (std ^ 2 + mean ^ 2)),
        sqrt (ln (1 + std ^ 2 / mean ^ 2)))
  /\ calculate_lognormal_params mean 0 = Ok (ln mean, 0).
Proof.
  intros Hm Hs. split.
  - apply calculate_lognormal_params_nonzero. lra.
  - rewrite calculate_lognormal_params_nonzero by lra.
    replace (0 ^ 2 + mean ^ 2) with (mean ^ 2) by ring.
    rewrite sqrt_pow2 by lra.
    replace (mean ^ 2 / mean) with mean by (field; lra).
    replace (1 + 0 ^ 2 / mean ^ 2) with 1 by (field; lra).
    rewrite ln_1, sqrt_0. reflexivity.
Qed.

Lemma calculate_lognormal_params_formula_witness :
  calculate_lognormal_params 2 1 =
    Ok (ln (2 ^ 2 / sqrt (1 ^ 2 + 2 ^ 2)), sqrt (ln (1 + 1 ^ 2 / 2 ^ 2)))
  /\ calculate_lognormal_params 2 0 = Ok (ln 2, 0).
Proof.
  apply (calculate_lognormal_params_formula 2 1); lra.
Defined.

(** ** One patient: the comparison with the target *)

(** When the [try] block succeeds, every guard of the formula held. *)
Lemma ft_mic_try_inv (dose fu vd mic clt di r : R) :
  ft_mic_try dose fu vd mic clt di = Ok r ->
  vd * mic <> 0 /\ 0 < (dose * fu) / (vd * mic) /\ clt <> 0 /\ di <> 0
  /\ r = Py.max (ln ((dose * fu) / (vd * mic)) * (vd / clt) * (100 / di)) 0.
Proof.
  unfold ft_mic_try, Py.div, Py.log.
  destruct (Req_dec_T (vd * mic) 0); cbn; [discriminate |].
  destruct (Rlt_dec 0 (dose * fu / (vd * mic))); cbn; [| discriminate].
  destruct (Req_dec_T clt 0); cbn; [discriminate |].
  destruct (Req_dec_T di 0); cbn; [discriminate |].
  intros E. injection E as <-. auto.
Qed.

(** The three failures named by the exposure model's policy all end in the
    message. *)
Lemma calculate_ft_mic_domain_error (dose fu vd mic clt di : R) :
  (dose * fu) / (vd * mic) <= 0 \/ clt = 0 \/ vd = 0 ->
  calculate_ft_mic dose fu vd mic clt di = Ok (FtStr invalid_parameters).
Proof.
  intros H. unfold calculate_ft_mic.
  destruct (ft_mic_try_cases dose fu vd mic clt di) as [(r & _ & E) | [E | E]];
    rewrite E; try reflexivity.
  exfalso. apply ft_mic_try_inv in E. destruct E as (Hd & Hq & Hc & _).
  destruct H as [H | [H | H]]; [lra | contradiction |].
  subst vd. apply Hd. ring.
Qed.

(** A message in place of a number makes the comparison raise. *)
Lemma meets_target_domain_error (dose di mic target fu vd clt : R) :
  (dose * fu) / (vd * mic) <= 0 \/ clt = 0 \/ vd = 0 ->
  meets_target dose di mic target fu vd clt = Raise TypeError.
Proof.
  intros H. unfold meets_target.
  rewrite (calculate_ft_mic_domain_error _ _ _ _ _ _ H). reflexivity.
Qed.

Lemma meets_target_inv (dose di mic target fu vd clt : R) (b : bool) :
  meets_target dose di mic target fu vd clt = Ok b ->
  exists r, ft_mic_try dose fu vd mic clt di = Ok r
            /\ b = if Rle_dec target r then true else false.
Proof.
  unfold meets_target, calculate_ft_mic.
  destruct (ft_mic_try dose fu vd mic clt di) as [r | []]; cbn;
    try discriminate.
  intros E. injection E as <-. exists r. auto.
Qed.

Lemma meets_target_num (dose di mic target fu vd clt r : R) :
  ft_mic_try dose fu vd mic clt di = Ok r ->
  meets_target dose di mic target fu vd clt =
    Ok (if Rle_dec target r then true else false).
Proof.
  intros E. unfold meets_target, calculate_ft_mic. rewrite E. reflexivity.
Qed.

(** The comparison either answers or raises TypeError; nothing else. *)
Lemma meets_target_cases (dose di mic target fu vd clt : R) :
  (exists b, meets_target dose di mic target fu vd clt = Ok b)
  \/ meets_target dose di mic target fu vd clt = Raise TypeError.
Proof.
  unfold meets_target, calculate_ft_mic.
  destruct (ft_mic_try_cases dose fu vd mic clt di) as [(r & _ & E) | [E | E]];
    rewrite E; cbn; eauto.
Qed.

(** Exposure at a lower threshold, for a patient that evaluates at the higher
    one. *)
Lemma ft_mic_try_threshold_mono (dose di fu vd clt m1 m2 r2 : R) :
  0 < m1 <= m2 -> 0 <= vd -> 0 <= clt -> 0 < di ->
  ft_mic_try dose fu vd m2 clt di = Ok r2 ->
  exists r1, ft_mic_try dose fu vd m1 clt di = Ok r1 /\ r2 <= r1.
Proof.
  intros Hm Hvd Hclt Hdi E.
  apply ft_mic_try_inv in E. destruct E as (Hd & Hq & Hc & _ & ->).
  assert (Hvd' : 0 < vd) by (destruct Hvd as [? | <-]; [assumption | exfalso; apply Hd; ring]).
  assert (Hclt' : 0 < clt) by lra.
  assert (Hden2 : 0 < vd * m2) by (apply Rmult_lt_0_compat; lra).
  assert (Hden1 : 0 < vd * m1) by (apply Rmult_lt_0_compat; lra).
  assert (Hnum : 0 < dose * fu).
  { replace (dose * fu) with (dose * fu / (vd * m2) * (vd * m2)) by (field; lra).
    apply Rmult_lt_0_compat; assumption. }
  assert (Hq1 : 0 < dose * fu / (vd * m1)) by (apply Rdiv_lt_0_compat; assumption).
  assert (Hle : dose * fu / (vd * m2) <= dose * fu / (vd * m1)).
  { unfold Rdiv. apply Rmult_le_compat_l; [lra |].
    apply Rinv_le_contravar; [assumption |].
    apply Rmult_le_compat_l; lra. }
  eexists. split.
  - apply ft_mic_try_ok; [assumption | lra | lra].
  - apply py_max_mono.
    assert (Hln : ln (dose * fu / (vd * m2)) <= ln (dose * fu / (vd * m1))).
    { destruct Hle as [Hlt | Heq].
      - left. apply ln_increasing; assumption.
      - rewrite Heq. right; reflexivity. }
    assert (H2 : 0 < vd / clt) by (apply Rdiv_lt_0_compat; assumption).
    assert (H3 : 0 < 100 / di) by (apply Rdiv_lt_0_compat; lra).
    rewrite !Rmult_assoc.
    apply Rmult_le_compat_r; [| assumption].
    left. apply Rmult_lt_0_compat; assumption.
Qed.

Lemma meets_target_threshold_mono (dose di target fu vd clt m1 m2 : R) (b2 : bool) :
  0 < m1 <= m2 -> 0 <= vd -> 0 <= clt -> 0 < di ->
  meets_target dose di m2 target fu vd clt = Ok b2 ->
  exists b1, meets_target dose di m1 target fu vd clt = Ok b1
             /\ (b2 = true -> b1 = true).
Proof.
  intros Hm Hvd Hclt Hdi E.
  apply meets_target_inv in E. destruct E as (r2 & E2 & ->).
  destruct (ft_mic_try_threshold_mono _ _ _ _ _ _ _ _ Hm Hvd Hclt Hdi E2)
    as (r1 & E1 & Hr).
  eexists. split; [apply (meets_target_num _ _ _ _ _ _ _ _ E1) |].
  destruct (Rle_dec target r2), (Rle_dec target r1); auto; try discriminate.
  lra.
Qed.

(** ** Dictionaries *)

Section DictFacts.
Context {K V : Type}.
Variable K_eq_dec : forall x y : K, {x = y} + {x <> y}.

Lemma dict_get_set_same (k : K) (v : V) (d : list (K * V)) :
  dict_get K_eq_dec k (dict_set K_eq_dec k v d) = Some v.
Proof.
  induction d as [| [k' v'] t IH]; cbn.
  - destruct (K_eq_dec k k); [reflexivity | contradiction].
  - destruct (K_eq_dec k' k) as [E | N]; cbn.
    + destruct (K_eq_dec k' k); [reflexivity | contradiction].
    + destruct (K_eq_dec k' k); [contradiction | exact IH].
Qed.

Lemma dict_get_set_other (k k0 : K) (v : V) (d : list (K * V)) :
  k <> k0 ->
  dict_get K_eq_dec k0 (dict_set K_eq_dec k v d) = dict_get K_eq_dec k0 d.
Proof.
  intros Hne. induction d as [| [k' v'] t IH]; cbn.
  - destruct (K_eq_dec k k0); [contradiction | reflexivity].
  - destruct (K_eq_dec k' k) as [E | N]; cbn.
    + destruct (K_eq_dec k' k0); [subst; contradiction | reflexivity].
    + destruct (K_eq_dec k' k0); [reflexivity | exact IH].
Qed.

Lemma dict_set_set (k : K) (v1 v2 : V) (d : list (K * V)) :
  dict_set K_eq_dec k v2 (dict_set K_eq_dec k v1 d) = dict_set K_eq_dec k v2 d.
Proof.
  induction d as [| [k' v'] t IH]; cbn.
  - destruct (K_eq_dec k k); [reflexivity | contradiction].
  - destruct (K_eq_dec k' k) as [E | N]; cbn.
    + destruct (K_eq_dec k' k); [reflexivity | contradiction].
    + destruct (K_eq_dec k' k); [contradiction | rewrite IH; reflexivity].
Qed.

Lemma dict_set_get_same (k : K) (v : V) (d : list (K * V)) :
  dict_get K_eq_dec k d = Some v -> dict_set K_eq_dec k v d = d.
Proof.
  induction d as [| [k' v'] t IH]; cbn; [discriminate |].
  destruct (K_eq_dec k' k) as [E | N]; intros H.
  - injection H as ->. reflexivity.
  - rewrite IH by assumption. reflexivity.
Qed.

Lemma dict_get_In (k : K) (v : V) (d : list (K * V)) :
  dict_get K_eq_dec k d = Some v -> In (k, v) d.
Proof.
  induction d as [| [k' v'] t IH]; cbn; [discriminate |].
  destruct (K_eq_dec k' k) as [-> | N].
  - intros E. injection E as ->. left; reflexivity.
  - intros E. right. apply IH, E.
Qed.

Lemma dict_get_None (k : K) (d : list (K * V)) :
  dict_get K_eq_dec k d = None <-> ~ In k (dict_keys d).
Proof.
  unfold dict_keys. induction d as [| [k' v'] t IH]; cbn.
  - tauto.
  - destruct (K_eq_dec k' k) as [-> | N].
    + split; [discriminate | intros H; exfalso; apply H; auto].
    + rewrite IH. tauto.
Qed.

Lemma In_dict_get (k : K) (v : V) (d : list (K * V)) :
  NoDup (dict_keys d) -> In (k, v) d -> dict_get K_eq_dec k d = Some v.
Proof.
  unfold dict_keys. induction d as [| [k' v'] t IH]; cbn; [tauto |].
  intros Hnd [E | Hin].
  - injection E as -> ->. destruct (K_eq_dec k k); [reflexivity | contradiction].
  - inversion Hnd as [| ? ? Hnotin Hnd']; subst.
    destruct (K_eq_dec k' k) as [-> | N].
    + exfalso. apply Hnotin. apply (in_map fst) in Hin. exact Hin.
    + apply IH; assumption.
Qed.

(** Assigning to a present key leaves the keys alone; a new key goes to the
    end. *)
Lemma dict_keys_set_present (k : K) (v : V) (d : list (K * V)) :
  In k (dict_keys d) -> dict_keys (dict_set K_eq_dec k v d) = dict_keys d.
Proof.
  unfold dict_keys. induction d as [| [k' v'] t IH]; cbn; [tauto |].
  intros [E | Hin]; destruct (K_eq_dec k' k) as [E' | N]; cbn;
    try reflexivity; try contradiction.
  rewrite IH by assumption. reflexivity.
Qed.

Lemma dict_keys_set_fresh (k : K) (v : V) (d : list (K * V)) :
  ~ In k (dict_keys d) ->
  dict_keys (dict_set K_eq_dec k v d) = dict_keys d ++ [k].
Proof.
  unfold dict_keys. induction d as [| [k' v'] t IH]; cbn; [reflexivity |].
  intros Hnot. destruct (K_eq_dec k' k) as [E' | N]; cbn.
  - exfalso. apply Hnot. auto.
  - rewrite IH by tauto. reflexivity.
Qed.

Lemma dict_set_Forall (P : K * V -> Prop) (k : K) (v : V) (d : list (K * V)) :
  (forall k', P (k', v)) -> Forall P d -> Forall P (dict_set K_eq_dec k v d).
Proof.
  intros Hv. induction 1 as [| [k' v'] t Hh Ht IH]; cbn.
  - constructor; [apply Hv | constructor].
  - destruct (K_eq_dec k' k); constructor; auto.
Qed.

End DictFacts.

(** First occurrences: a repeated element that also occurs later on the
    right is dropped by [nodup]. *)
Lemma nodup_app_repeat (x : R) (a b : list R) :
  In x b ->
  nodup Req_dec_T (a ++ x :: b) = nodup Req_dec_T (a ++ b).
Proof.
  intros Hin. induction a as [| y a IH]; cbn [app nodup].
  - destruct (in_dec Req_dec_T x b); [reflexivity | contradiction].
  - rewrite IH.
    destruct (in_dec Req_dec_T y (a ++ x :: b)) as [H1 | H1],
             (in_dec Req_dec_T y (a ++ b)) as [H2 | H2]; try reflexivity;
      exfalso.
    + apply H2. apply in_app_or in H1. apply in_or_app.
      destruct H1 as [H1 | [-> | H1]]; auto.
    + apply H1. apply in_app_or in H2. apply in_or_app.
      destruct H2 as [H2 | H2]; [left | right; right]; assumption.
Qed.

(** ** The Monte Carlo engine *)

Section EngineFacts.

Variable rng : Type.
Variable lognormal : R -> R -> rng -> R * rng.
Variables fu_mu fu_sigma vd_mu vd_sigma clt_mu clt_sigma : R.
Variable dose_intervals : list regimen.
Variable num_patients : Z.
Variable target : R.

Local Abbreviation drawP :=
  (draw_patient rng lognormal fu_mu fu_sigma vd_mu vd_sigma clt_mu clt_sigma).
Local Abbreviation cohortP :=
  (cohort rng lognormal fu_mu fu_sigma vd_mu vd_sigma clt_mu clt_sigma).
Local Abbreviation patientP :=
  (patient rng lognormal fu_mu fu_sigma vd_mu vd_sigma clt_mu clt_sigma target).
Local Abbreviation patientsP :=
  (patients_loop rng lognormal fu_mu fu_sigma vd_mu vd_sigma clt_mu clt_sigma
     target).
Local Abbreviation regimenP :=
  (regimen_body rng lognormal fu_mu fu_sigma vd_mu vd_sigma clt_mu clt_sigma
     num_patients target).
Local Abbreviation regimensP :=
  (regimens_loop rng lognormal fu_mu fu_sigma vd_mu vd_sigma clt_mu clt_sigma
     num_patients target).
Local Abbreviation micsP :=
  (mics_loop rng lognormal fu_mu fu_sigma vd_mu vd_sigma clt_mu clt_sigma
     dose_intervals num_patients target).

(** The clamp keeps every drawn parameter non-negative. *)
Lemma draw_patient_nonneg (s s' : rng) (fu vd clt : R) :
  drawP s = ((fu, vd, clt), s') -> 0 <= fu /\ 0 <= vd /\ 0 <= clt.
Proof.
  unfold draw_patient.
  destruct (lognormal fu_mu fu_sigma s) as [a s1].
  destruct (lognormal vd_mu vd_sigma s1) as [b s2].
  destruct (lognormal clt_mu clt_sigma s2) as [c s3].
  intros E. injection E as <- <- <- _.
  repeat split; apply py_max_nonneg.
Qed.

(** One iteration: three draws, then the comparison. *)
Lemma patient_run (dose di mic : R) (c : nat) (s : rng) :
  patientP dose di mic c s =
    match meets_target dose di mic target
            (fst (fst (fst (drawP s)))) (snd (fst (fst (drawP s))))
            (snd (fst (drawP s))) with
    | Ok b => (Ok (if b then S c else c), snd (drawP s))
    | Raise e => (Raise e, snd (drawP s))
    end.
Proof.
  unfold patient, draw_patient, bind, draw, lift, ret.
  destruct (lognormal fu_mu fu_sigma s) as [a s1].
  destruct (lognormal vd_mu vd_sigma s1) as [b s2].
  destruct (lognormal clt_mu clt_sigma s2) as [c' s3]. cbn.
  destruct (meets_target dose di mic target (Py.max a 0) (Py.max b 0) (Py.max c' 0));
    reflexivity.
Qed.

Lemma successes_le_length (dose di mic : R) (ps : list (R * R * R)) :
  (successes target dose di mic ps <= List.length ps)%nat.
Proof. unfold successes. apply filter_length_le. Qed.

Lemma cohort_length (n : nat) (s : rng) : List.length (fst (cohortP n s)) = n.
Proof.
  revert s. induction n as [| n IH]; intros s; cbn; [reflexivity |].
  destruct (drawP s) as [p s1].
  specialize (IH s1). destruct (cohortP n s1) as [ps s2]. cbn in *.
  rewrite IH. reflexivity.
Qed.

(** A completed patient loop has counted the hits of its cohort. *)
Lemma patients_loop_ok (n : nat) (dose di mic : R) (c c' : nat) (s s' : rng) :
  patientsP n dose di mic c s = (Ok c', s') ->
  s' = snd (cohortP n s)
  /\ c' = (c + successes target dose di mic (fst (cohortP n s)))%nat.
Proof.
  revert c s. induction n as [| n IH]; intros c s; cbn.
  - unfold ret. intros E. injection E as <- <-. split; [reflexivity | ].
    unfold successes. cbn. lia.
  - unfold bind at 1. rewrite patient_run.
    destruct (drawP s) as [[[fu vd] clt] s1] eqn:Ed. cbn [fst snd].
    destruct (meets_target dose di mic target fu vd clt) as [b | e] eqn:Em;
      [| discriminate].
    intros E. apply IH in E. destruct E as [-> ->].
    destruct (cohortP n s1) as [ps s2]. cbn [fst snd].
    split; [reflexivity |].
    unfold successes. cbn [filter hit]. rewrite Em.
    destruct b; cbn [List.length]; lia.
Qed.

(** The exception of the first patient ends the patient loop. *)
Lemma patients_loop_raise (n : nat) (dose di mic : R) (c : nat) (s : rng)
      (e : exn) :
  meets_target dose di mic target
    (fst (fst (fst (drawP s)))) (snd (fst (fst (drawP s))))
    (snd (fst (drawP s))) = Raise e ->
  patientsP (S n) dose di mic c s = (Raise e, snd (drawP s)).
Proof.
  intros E. cbn. unfold bind at 1. rewrite patient_run, E. reflexivity.
Qed.

Lemma pta_in_range (c : nat) :
  (c <= Z.to_nat num_patients)%nat -> num_patients <> 0%Z ->
  0 <= INR c / IZR num_patients * 100 <= 100.
Proof.
  intros Hc Hn.
  destruct (Z_lt_le_dec 0 num_patients) as [Hpos | Hneg].
  - assert (Hn' : 0 < IZR num_patients) by (apply IZR_lt; assumption).
    assert (Hc' : INR c <= IZR num_patients).
    { rewrite <- (Z2Nat.id num_patients) at 1 by lia.
      rewrite <- INR_IZR_INZ. apply le_INR. assumption. }
    pose proof (pos_INR c) as Hc0.
    assert (0 <= INR c / IZR num_patients <= 1).
    { split.
      - apply Rmult_le_pos; [assumption | left; apply Rinv_0_lt_compat; assumption].
      - apply (Rmult_le_reg_r (IZR num_patients)); [assumption |].
        unfold Rdiv. rewrite Rmult_assoc, Rinv_l by lra. lra. }
    lra.
  - assert (c = 0%nat) by lia. subst c.
    cbn. unfold Rdiv. rewrite Rmult_0_l. lra.
Qed.

(** One regimen: the row appended is (dose, di, successes / N * 100). *)
Lemma regimen_body_ok (mic dose di : R) (results results' : list (R * list row))
      (s s' : rng) :
  regimenP mic results (dose, di) s = (Ok results', s') ->
  exists old,
    dict_get Req_dec_T mic results = Some old
    /\ num_patients <> 0%Z
    /\ s' = snd (cohortP (Z.to_nat num_patients) s)
    /\ results' =
         dict_set Req_dec_T mic
           (old ++ [(dose, di,
                     INR (successes target dose di mic
                            (fst (cohortP (Z.to_nat num_patients) s)))
                     / IZR num_patients * 100)])
           results.
Proof.
  unfold regimen_body. unfold bind at 1.
  destruct (patientsP (Z.to_nat num_patients) dose di mic 0 s)
    as [[c | e] s1] eqn:Ep; [| discriminate].
  apply patients_loop_ok in Ep. destruct Ep as [-> ->]. cbn [Nat.add].
  unfold bind, lift, Py.div.
  destruct (Req_dec_T (IZR num_patients) 0) as [Hz | Hnz]; [discriminate |].
  unfold append_row, dict_item.
  destruct (dict_get Req_dec_T mic results) as [old |]; cbn [rbind];
    [| discriminate].
  intros E. injection E as <- <-. exists old.
  repeat split; try reflexivity.
  intros Hn. apply Hnz. rewrite Hn. reflexivity.
Qed.

Lemma regimen_body_raise (mic dose di : R) (results : list (R * list row))
      (s : rng) (e : exn) :
  (0 < num_patients)%Z ->
  meets_target dose di mic target
    (fst (fst (fst (drawP s)))) (snd (fst (fst (drawP s))))
    (snd (fst (drawP s))) = Raise e ->
  regimenP mic results (dose, di) s = (Raise e, snd (drawP s)).
Proof.
  intros Hn E. unfold regimen_body. unfold bind at 1.
  destruct (Z.to_nat num_patients) as [| n] eqn:En; [lia |].
  rewrite (patients_loop_raise n dose di mic 0 s e E). reflexivity.
Qed.

Lemma regimens_loop_cons (x : regimen) (t : list regimen) (mic : R)
      (results : list (R * list row)) (s : rng) :
  regimensP (x :: t) mic results s =
    match regimenP mic results x s with
    | (Ok r, s1) => regimensP t mic r s1
    | (Raise e, s1) => (Raise e, s1)
    end.
Proof. reflexivity. Qed.

Lemma mics_loop_cons (mic : R) (t : list R) (results : list (R * list row))
      (s : rng) :
  micsP (mic :: t) results s =
    match regimensP dose_intervals mic (dict_set Req_dec_T mic [] results) s with
    | (Ok r, s1) => micsP t r s1
    | (Raise e, s1) => (Raise e, s1)
    end.
Proof. reflexivity. Qed.

(** The regimen loop appends one in-range row per regimen, in order, to the
    list of its threshold and touches nothing else. *)
Lemma regimens_loop_ok (l : list regimen) (mic : R) :
  forall (results results' : list (R * list row)) (s s' : rng) (old : list row),
    regimensP l mic results s = (Ok results', s') ->
    dict_get Req_dec_T mic results = Some old ->
    exists rows,
      results' = dict_set Req_dec_T mic (old ++ rows) results
      /\ map regimen_of rows = l
      /\ Forall row_in_range rows.
Proof.
  induction l as [| [dose di] t IH]; intros results results' s s' old.
  - cbn. unfold ret. intros E Hold. injection E as <- <-. exists [].
    rewrite app_nil_r, dict_set_get_same by assumption.
    repeat split; constructor.
  - rewrite regimens_loop_cons.
    destruct (regimenP mic results (dose, di) s) as [[r1 | e] s1] eqn:Eb;
      [| discriminate].
    intros E Hold.
    apply regimen_body_ok in Eb. destruct Eb as (old' & Hold' & Hn & -> & ->).
    rewrite Hold in Hold'. injection Hold' as <-.
    eapply IH in E; [| apply dict_get_set_same].
    destruct E as (rows & -> & Hmap & Hrows).
    eexists (_ :: rows). rewrite dict_set_set, <- app_assoc. cbn [app].
    repeat split.
    + cbn. rewrite Hmap. reflexivity.
    + constructor; [| assumption].
      unfold row_in_range, pta_of. apply pta_in_range; [| assumption].
      rewrite <- (cohort_length (Z.to_nat num_patients) s) at 2.
      apply successes_le_length.
Qed.

Lemma regimens_loop_raise (t : list regimen) (mic dose di : R)
      (results : list (R * list row)) (s : rng) (e : exn) :
  (0 < num_patients)%Z ->
  meets_target dose di mic target
    (fst (fst (fst (drawP s)))) (snd (fst (fst (drawP s))))
    (snd (fst (drawP s))) = Raise e ->
  regimensP ((dose, di) :: t) mic results s = (Raise e, snd (drawP s)).
Proof.
  intros Hn E. rewrite regimens_loop_cons.
  rewrite (regimen_body_raise mic dose di results s e Hn E). reflexivity.
Qed.

(** What one threshold does to the dictionary. *)
Lemma mics_step_ok (mic : R) (results results' : list (R * list row))
      (s s' : rng) :
  regimensP dose_intervals mic (dict_set Req_dec_T mic [] results) s
    = (Ok results', s') ->
  exists rows,
    results' = dict_set Req_dec_T mic rows results
    /\ map regimen_of rows = dose_intervals
    /\ Forall row_in_range rows.
Proof.
  intros E.
  eapply regimens_loop_ok in E; [| apply dict_get_set_same].
  destruct E as (rows & -> & Hmap & Hrows).
  exists rows. rewrite dict_set_set. auto.
Qed.

Local Abbreviation rows_ok := (rows_ok dose_intervals).

Lemma mics_loop_ok (mics : list R) :
  forall (results results' : list (R * list row)) (s s' : rng),
    micsP mics results s = (Ok results', s') ->
    NoDup (dict_keys results) ->
    Forall rows_ok results ->
    dict_keys results' =
      rev (nodup Req_dec_T (rev (dict_keys results ++ mics)))
    /\ Forall rows_ok results'.
Proof.
  induction mics as [| mic t IH]; intros results results' s s'.
  - cbn. unfold ret. intros E Hnd Hok. injection E as <- <-.
    rewrite app_nil_r, nodup_fixed_point, rev_involutive
      by (apply NoDup_rev; assumption).
    auto.
  - rewrite mics_loop_cons.
    destruct (regimensP dose_intervals mic (dict_set Req_dec_T mic [] results) s)
      as [[r1 | e] s1] eqn:Er; [| discriminate].
    intros E Hnd Hok.
    apply mics_step_ok in Er. destruct Er as (rows & -> & Hmap & Hrows).
    apply IH in E.
    + destruct E as [-> Hok']. split; [| assumption].
      destruct (in_dec Req_dec_T mic (dict_keys results)) as [Hin | Hnot].
      * rewrite dict_keys_set_present by assumption.
        rewrite !rev_app_distr. cbn [rev]. rewrite <- app_assoc. cbn [app].
        rewrite nodup_app_repeat by (apply in_rev in Hin; assumption).
        reflexivity.
      * rewrite dict_keys_set_fresh by assumption.
        rewrite <- app_assoc. reflexivity.
    + destruct (in_dec Req_dec_T mic (dict_keys results)) as [Hin | Hnot].
      * rewrite dict_keys_set_present; assumption.
      * rewrite dict_keys_set_fresh by assumption.
        rewrite <- (rev_involutive (dict_keys results ++ [mic])).
        apply NoDup_rev. rewrite rev_app_distr. cbn.
        constructor; [rewrite <- in_rev; assumption | apply NoDup_rev; assumption].
    + apply dict_set_Forall; [| assumption].
      intros k'. split; assumption.
Qed.

End EngineFacts.

(** ** The whole simulation *)

Section Simulation.

Variable rng : Type.
Variable lognormal : R -> R -> rng -> R * rng.

Local Abbreviation simulate := (monte_carlo_simulation rng lognormal).

(** The three conversions come first and read no random number. *)
Lemma monte_carlo_simulation_converted
      (dose_intervals : list regimen)
      (fu_mean fu_std vd_mean vd_std clt_mean clt_std : R)
      (mics : list R) (num_patients : Z) (target : R)
      (fu vd clt : R * R) (s : rng) :
  calculate_lognormal_params fu_mean fu_std = Ok fu ->
  calculate_lognormal_params vd_mean vd_std = Ok vd ->
  calculate_lognormal_params clt_mean clt_std = Ok clt ->
  simulate dose_intervals fu_mean fu_std vd_mean vd_std clt_mean clt_std
    mics num_patients target s =
  mics_loop rng lognormal (fst fu) (snd fu) (fst vd) (snd vd) (fst clt) (snd clt)
    dose_intervals num_patients target mics [] s.
Proof.
  intros E1 E2 E3. unfold monte_carlo_simulation, bind, lift.
  rewrite E1, E2, E3. reflexivity.
Qed.

Lemma monte_carlo_simulation_inv
      (dose_intervals : list regimen)
      (fu_mean fu_std vd_mean vd_std clt_mean clt_std : R)
      (mics : list R) (num_patients : Z) (target : R)
      (results : list (R * list row)) (s s' : rng) :
  simulate dose_intervals fu_mean fu_std vd_mean vd_std clt_mean clt_std
    mics num_patients target s = (Ok results, s') ->
  exists fu vd clt,
    calculate_lognormal_params fu_mean fu_std = Ok fu
    /\ calculate_lognormal_params vd_mean vd_std = Ok vd
    /\ calculate_lognormal_params clt_mean clt_std = Ok clt
    /\ mics_loop rng lognormal (fst fu) (snd fu) (fst vd) (snd vd)
         (fst clt) (snd clt) dose_intervals num_patients target mics [] s
       = (Ok results, s').
Proof.
  unfold monte_carlo_simulation, bind, lift.
  destruct (calculate_lognormal_params fu_mean fu_std) as [fu | e];
    [| discriminate].
  destruct (calculate_lognormal_params vd_mean vd_std) as [vd | e];
    [| discriminate].
  destruct (calculate_lognormal_params clt_mean clt_std) as [clt | e];
    [| discriminate].
  intros E. exists fu, vd, clt. auto.
Qed.

(** A zero mean stops the run inside the converter, before any draw. *)
Lemma monte_carlo_simulation_zero_mean
      (dose_intervals : list regimen)
      (fu_mean fu_std vd_mean vd_std clt_mean clt_std : R)
      (mics : list R) (num_patients : Z) (target : R) (s : rng) :
  fu_mean = 0 \/ vd_mean = 0 \/ clt_mean = 0 ->
  exists e,
    (e = ValueError \/ e = ZeroDivisionError)
    /\ simulate dose_intervals fu_mean fu_std vd_mean vd_std clt_mean clt_std
         mics num_patients target s = (Raise e, s).
Proof.
  intros H. unfold monte_carlo_simulation, bind, lift.
  assert (Hz : forall std, exists e, (e = ValueError \/ e = ZeroDivisionError)
                 /\ calculate_lognormal_params 0 std = Raise e).
  { intros std. rewrite calculate_lognormal_params_zero.
    destruct (Req_dec_T std 0); eauto. }
  destruct (Req_dec_T fu_mean 0) as [-> | Hfu].
  { destruct (Hz fu_std) as (e & He & ->). eauto. }
  rewrite (calculate_lognormal_params_nonzero _ fu_std Hfu).
  destruct (Req_dec_T vd_mean 0) as [-> | Hvd].
  { destruct (Hz vd_std) as (e & He & ->). eauto. }
  rewrite (calculate_lognormal_params_nonzero _ vd_std Hvd).
  destruct H as [H | [H | ->]]; try contradiction.
  destruct (Hz clt_std) as (e & He & ->). eauto.
Qed.

(** The run stops at the first patient whose comparison raises. *)
Lemma monte_carlo_simulation_first_patient_raises
      (dose di : R) (dis : list regimen)
      (fu_mean fu_std vd_mean vd_std clt_mean clt_std : R)
      (mic : R) (mics : list R) (num_patients : Z) (target : R)
      (fu_mu fu_sigma vd_mu vd_sigma clt_mu clt_sigma : R)
      (fu vd clt : R) (s s' : rng) (e : exn) :
  calculate_lognormal_params fu_mean fu_std = Ok (fu_mu, fu_sigma) ->
  calculate_lognormal_params vd_mean vd_std = Ok (vd_mu, vd_sigma) ->
  calculate_lognormal_params clt_mean clt_std = Ok (clt_mu, clt_sigma) ->
  (0 < num_patients)%Z ->
  draw_patient rng lognormal fu_mu fu_sigma vd_mu vd_sigma clt_mu clt_sigma s
    = ((fu, vd, clt), s') ->
  meets_target dose di mic target fu vd clt = Raise e ->
  simulate ((dose, di) :: dis) fu_mean fu_std vd_mean vd_std clt_mean clt_std
    (mic :: mics) num_patients target s = (Raise e, s').
Proof.
  intros E1 E2 E3 Hn Ed Em.
  rewrite (monte_carlo_simulation_converted _ _ _ _ _ _ _ _ _ _ _ _ _ _ E1 E2 E3).
  cbn [fst snd]. rewrite mics_loop_cons, regimens_loop_raise with (e := e).
  - rewrite Ed. reflexivity.
  - assumption.
  - rewrite Ed. exact Em.
Qed.

End Simulation.

(** ** Runs on the tape generator *)

Lemma tape_lognormal_pos (mu sigma : R) (tape : list R) :
  0 < fst (tape_lognormal mu sigma tape).
Proof. destruct tape; cbn; apply exp_pos. Qed.

Lemma py_max_pos (x : R) : 0 < x -> Py.max x 0 = x.
Proof. intros H. unfold Py.max. destruct (Rlt_dec x 0); [lra | reflexivity]. Qed.

Lemma tape_draw_patient_pos (fu_mu fu_sigma vd_mu vd_sigma clt_mu clt_sigma : R)
      (tape : list R) :
  let p := fst (draw_patient (list R) tape_lognormal
                  fu_mu fu_sigma vd_mu vd_sigma clt_mu clt_sigma tape) in
  0 < fst (fst p) /\ 0 < snd (fst p) /\ 0 < snd p.
Proof.
  unfold draw_patient.
  pose proof (tape_lognormal_pos fu_mu fu_sigma tape) as H1.
  destruct (tape_lognormal fu_mu fu_sigma tape) as [a t1].
  pose proof (tape_lognormal_pos vd_mu vd_sigma t1) as H2.
  destruct (tape_lognormal vd_mu vd_sigma t1) as [b t2].
  pose proof (tape_lognormal_pos clt_mu clt_sigma t2) as H3.
  destruct (tape_lognormal clt_mu clt_sigma t2) as [c t3].
  cbn in *. rewrite !py_max_pos by assumption. auto.
Qed.

(** With a target that is not positive, a valid regimen and threshold count
    every patient of the tape. *)
Lemma tape_patient_hit (fu_mu fu_sigma vd_mu vd_sigma clt_mu clt_sigma : R)
      (target dose di mic : R) (c : nat) (tape : list R) :
  0 < dose -> 0 < mic -> di <> 0 -> target <= 0 ->
  patient (list R) tape_lognormal fu_mu fu_sigma vd_mu vd_sigma clt_mu clt_sigma
    target dose di mic c tape =
  (Ok (S c),
   snd (draw_patient (list R) tape_lognormal
          fu_mu fu_sigma vd_mu vd_sigma clt_mu clt_sigma tape)).
Proof.
  intros Hdose Hmic Hdi Ht. rewrite patient_run.
  destruct (tape_draw_patient_pos fu_mu fu_sigma vd_mu vd_sigma clt_mu clt_sigma tape)
    as (Hfu & Hvd & Hclt).
  destruct (draw_patient (list R) tape_lognormal
              fu_mu fu_sigma vd_mu vd_sigma clt_mu clt_sigma tape)
    as [[[fu vd] clt] t']. cbn [fst snd] in *.
  assert (Hq : 0 < dose * fu / (vd * mic)).
  { apply Rdiv_lt_0_compat; apply Rmult_lt_0_compat; assumption. }
  rewrite (meets_target_num _ _ _ _ _ _ _ _
             (ft_mic_try_ok dose fu vd mic clt di Hq (Rgt_not_eq _ _ Hclt) Hdi)).
  destruct (Rle_dec target _) as [_ | Hn]; [reflexivity |].
  exfalso. apply Hn. eapply Rle_trans; [exact Ht | apply py_max_nonneg].
Qed.

(** A complete run: one regimen, one threshold, one patient, target 0, the
    median patient of a population with all three means equal to 1. *)
Lemma tape_run_example :
  monte_carlo_simulation (list R) tape_lognormal
    [(2000, 24)] 1 0 1 0 1 0 [1] 1 0 []
  = (Ok [(1, [(2000, 24, 100)])], []).
Proof.
  erewrite monte_carlo_simulation_converted
    by (apply calculate_lognormal_params_nonzero; lra).
  cbn [fst snd]. rewrite mics_loop_cons, regimens_loop_cons.
  unfold regimen_body. unfold bind at 1.
  change (Z.to_nat 1) with 1%nat. cbn [patients_loop]. unfold bind at 1.
  rewrite tape_patient_hit by lra.
  cbn [draw_patient tape_lognormal snd ret].
  unfold bind, lift. rewrite py_div_nonzero by (cbn; lra).
  unfold append_row, dict_item. cbn [dict_set dict_get].
  destruct (Req_dec_T 1 1) as [_ | N]; [| contradiction].
  cbn. replace (1 / 1 * 100) with 100 by field. reflexivity.
Qed.

(** The same run with the first mean negated. *)
Lemma tape_run_negative_mean :
  monte_carlo_simulation (list R) tape_lognormal
    [(2000, 24)] (-1) 0 1 0 1 0 [1] 1 0 []
  = (Ok [(1, [(2000, 24, 100)])], []).
Proof.
  rewrite <- tape_run_example.
  unfold monte_carlo_simulation.
  replace (-1) with (Ropp 1) by lra.
  rewrite (calculate_lognormal_params_opp 1 0). reflexivity.
Qed.

(** ** Domain errors inside a run *)

(** C2 (the code departs from it).  A patient draw whose logarithm argument is
    not positive, or whose clearance or volume is zero, is not counted as
    "target not met": the exposure model hands back its message, the
    comparison with the target raises TypeError, and the run is aborted with
    that error.  Shown for the first draw of a run. *)
Theorem domain_error_aborts_run
    (rng : Type) (lognormal : R -> R -> rng -> R * rng)
    (dose di : R) (dis : list regimen)
    (fu_mean fu_std vd_mean vd_std clt_mean clt_std : R)
    (mic : R) (mics : list R) (num_patients : Z) (target : R)
    (fu_mu fu_sigma vd_mu vd_sigma clt_mu clt_sigma : R)
    (fu vd clt : R) (s s' : rng) :
  calculate_lognormal_params fu_mean fu_std = Ok (fu_mu, fu_sigma) ->
  calculate_lognormal_params vd_mean vd_std = Ok (vd_mu, vd_sigma) ->
  calculate_lognormal_params clt_mean clt_std = Ok (clt_mu, clt_sigma) ->
  (0 < num_patients)%Z ->
  draw_patient rng lognormal fu_mu fu_sigma vd_mu vd_sigma clt_mu clt_sigma s
    = ((fu, vd, clt), s') ->
  (dose * fu) / (vd * mic) <= 0 \/ clt = 0 \/ vd = 0 ->
  calculate_ft_mic dose fu vd mic clt di = Ok (FtStr invalid_parameters)
  /\ meets_target dose di mic target fu vd clt = Raise TypeError
  /\ monte_carlo_simulation rng lognormal ((dose, di) :: dis)
       fu_mean fu_std vd_mean vd_std clt_mean clt_std
       (mic :: mics) num_patients target s = (Raise TypeError, s').
Proof.
  intros E1 E2 E3 Hn Ed Hdom.
  pose proof (meets_target_domain_error dose di mic target fu vd clt Hdom) as Em.
  split; [apply calculate_ft_mic_domain_error; assumption |].
  split; [exact Em |].
  eapply monte_carlo_simulation_first_patient_raises; eassumption.
Qed.

Lemma domain_error_aborts_run_witness :
  monte_carlo_simulation (list R) tape_lognormal [(0, 24)] 1 0 1 0 1 0
    [1] 5000 55 [] = (Raise TypeError, []).
Proof.
  refine (proj2 (proj2
    (domain_error_aborts_run (list R) tape_lognormal 0 24 [] 1 0 1 0 1 0
       1 [] 5000 55 _ _ _ _ _ _ _ _ _ [] []
       (calculate_lognormal_params_nonzero 1 0 R1_neq_R0)
       (calculate_lognormal_params_nonzero 1 0 R1_neq_R0)
       (calculate_lognormal_params_nonzero 1 0 R1_neq_R0)
       _ _ _))).
  - reflexivity.
  - reflexivity.
  - left. unfold Rdiv. rewrite !Rmult_0_l. lra.
Defined.

(** C4 (the code departs from it).  With the sidebar's default population,
    threshold 1, 5000 patients, target 55 and a regimen of dose 0, every
    patient draw is a domain error; the run does not report an attainment of
    0 for the pair but ends in TypeError at the first patient, whatever the
    generator produces. *)
Theorem all_domain_errors_abort_run
    (rng : Type) (lognormal : R -> R -> rng -> R * rng) (s : rng) :
  fst (monte_carlo_simulation rng lognormal [(0, 24)]
         (73 / 1000) (32 / 1000) (78 / 10) (54 / 10) (83 / 100) (83 / 100)
         [1] 5000 55 s)
  = Raise TypeError.
Proof.
  destruct (draw_patient rng lognormal
              (ln ((73 / 1000) ^ 2 / sqrt ((32 / 1000) ^ 2 + (73 / 1000) ^ 2)))
              (sqrt (ln (1 + (32 / 1000) ^ 2 / (73 / 1000) ^ 2)))
              (ln ((78 / 10) ^ 2 / sqrt ((54 / 10) ^ 2 + (78 / 10) ^ 2)))
              (sqrt (ln (1 + (54 / 10) ^ 2 / (78 / 10) ^ 2)))
              (ln ((83 / 100) ^ 2 / sqrt ((83 / 100) ^ 2 + (83 / 100) ^ 2)))
              (sqrt (ln (1 + (83 / 100) ^ 2 / (83 / 100) ^ 2))) s)
    as [[[fu vd] clt] s'] eqn:Ed.
  erewrite monte_carlo_simulation_first_patient_raises with (e := TypeError);
    [reflexivity | | | | | eassumption | ].
  - apply calculate_lognormal_params_nonzero; lra.
  - apply calculate_lognormal_params_nonzero; lra.
  - apply calculate_lognormal_params_nonzero; lra.
  - lia.
  - apply meets_target_domain_error. left.
    unfold Rdiv. rewrite !Rmult_0_l. lra.
Qed.

(** Where no draw is a domain error the reported value is what C4 says: the
    row appended for a pair is 100 * successes / N for the cohort drawn, and
    it lies in [0, 100]. *)
Lemma regimen_body_pta
    (rng : Type) (lognormal : R -> R -> rng -> R * rng)
    (fu_mu fu_sigma vd_mu vd_sigma clt_mu clt_sigma : R)
    (num_patients : Z) (target mic dose di : R)
    (results results' : list (R * list row)) (s s' : rng) :
  regimen_body rng lognormal fu_mu fu_sigma vd_mu vd_sigma clt_mu clt_sigma
    num_patients target mic results (dose, di) s = (Ok results', s') ->
  exists old pta,
    dict_get Req_dec_T mic results = Some old
    /\ results' = dict_set Req_dec_T mic (old ++ [(dose, di, pta)]) results
    /\ pta = 100 * INR (successes target dose di mic
                          (fst (cohort rng lognormal fu_mu fu_sigma vd_mu
                                  vd_sigma clt_mu clt_sigma
                                  (Z.to_nat num_patients) s)))
             / IZR num_patients
    /\ 0 <= pta <= 100.
Proof.
  intros E. apply regimen_body_ok in E.
  destruct E as (old & Hold & Hn & _ & ->).
  exists old. eexists. split; [exact Hold |]. split; [reflexivity |].
  split.
  - unfold Rdiv. ring.
  - apply pta_in_range; [| assumption].
    rewrite <- (cohort_length rng lognormal fu_mu fu_sigma vd_mu vd_sigma
                  clt_mu clt_sigma (Z.to_nat num_patients) s) at 2.
    apply successes_le_length.
Qed.

(** ** Input validation *)

(** A population mean of -1 is not rejected: the converter is called on it
    and returns, and the run executes to the end. *)
Lemma negative_mean_is_simulated :
  -1 <= 0
  /\ calculate_lognormal_params (-1) 0 = calculate_lognormal_params 1 0
  /\ calculate_lognormal_params 1 0 = Ok (ln 1, 0)
  /\ monte_carlo_simulation (list R) tape_lognormal
       [(2000, 24)] (-1) 0 1 0 1 0 [1] 1 0 []
     = (Ok [(1, [(2000, 24, 100)])], []).
Proof.
  split; [lra |]. split.
  - replace (-1) with (Ropp 1) by lra. apply calculate_lognormal_params_opp.
  - split; [| exact tape_run_negative_mean].
    rewrite calculate_lognormal_params_nonzero by lra.
    replace (0 ^ 2 + 1 ^ 2) with 1 by ring. rewrite sqrt_1.
    replace (1 ^ 2 / 1) with 1 by field.
    replace (1 + 0 ^ 2 / 1 ^ 2) with 1 by field.
    rewrite ln_1, sqrt_0. reflexivity.
Qed.

(** C6 (amended).  The engine has no validation step and no InvalidParameter
    error; it hands each population parameter to the converter first.  The
    converter reads a mean only through its square, so negating the means
    changes nothing in the run.  With nonzero means the run goes straight
    from the three conversions into the loops, whatever the regimens, the
    thresholds and the patient count are.  A zero mean makes the converter
    itself raise (ZeroDivisionError or ValueError), which ends the run before
    any random draw. *)
Theorem means_are_not_validated
    (rng : Type) (lognormal : R -> R -> rng -> R * rng)
    (dose_intervals : list regimen)
    (fu_mean fu_std vd_mean vd_std clt_mean clt_std : R)
    (mics : list R) (num_patients : Z) (target : R) (s : rng) :
  monte_carlo_simulation rng lognormal dose_intervals
    (- fu_mean) fu_std (- vd_mean) vd_std (- clt_mean) clt_std
    mics num_patients target s
  = monte_carlo_simulation rng lognormal dose_intervals
      fu_mean fu_std vd_mean vd_std clt_mean clt_std mics num_patients target s
  /\ (fu_mean <> 0 -> vd_mean <> 0 -> clt_mean <> 0 ->
      monte_carlo_simulation rng lognormal dose_intervals
        fu_mean fu_std vd_mean vd_std clt_mean clt_std mics num_patients target s
      = mics_loop rng lognormal
          (ln (fu_mean ^ 2 / sqrt (fu_std ^ 2 + fu_mean ^ 2)))
          (sqrt (ln (1 + fu_std ^ 2 / fu_mean ^ 2)))
          (ln (vd_mean ^ 2 / sqrt (vd_std ^ 2 + vd_mean ^ 2)))
          (sqrt (ln (1 + vd_std ^ 2 / vd_mean ^ 2)))
          (ln (clt_mean ^ 2 / sqrt (clt_std ^ 2 + clt_mean ^ 2)))
          (sqrt (ln (1 + clt_std ^ 2 / clt_mean ^ 2)))
          dose_intervals num_patients target mics [] s)
  /\ (fu_mean = 0 \/ vd_mean = 0 \/ clt_mean = 0 ->
      exists e,
        (e = ValueError \/ e = ZeroDivisionError)
        /\ monte_carlo_simulation rng lognormal dose_intervals
             fu_mean fu_std vd_mean vd_std clt_mean clt_std
             mics num_patients target s = (Raise e, s)).
Proof.
  split; [| split].
  - unfold monte_carlo_simulation.
    rewrite !calculate_lognormal_params_opp. reflexivity.
  - intros Hfu Hvd Hclt.
    erewrite monte_carlo_simulation_converted
      by (apply calculate_lognormal_params_nonzero; assumption).
    reflexivity.
  - apply monte_carlo_simulation_zero_mean.
Qed.

Lemma means_are_not_validated_witness :
  exists e,
    (e = ValueError \/ e = ZeroDivisionError)
    /\ monte_carlo_simulation (list R) tape_lognormal [(2000, 24)]
         0 1 1 0 1 0 [1] 1 0 [] = (Raise e, []).
Proof.
  apply (proj2 (proj2
    (means_are_not_validated (list R) tape_lognormal [(2000, 24)]
       0 1 1 0 1 0 [1] 1 0 []))).
  left. reflexivity.
Defined.

(** ** Monotonicity in the threshold *)

(** C8.  For a fixed regimen with a positive interval, fixed non-negative
    patient parameters and thresholds 0 < m1 <= m2, a patient that meets the
    target at m2 meets it at m1; hence on the same patient draws the success
    count, and with it the attainment percentage, at m1 is at least the one
    at m2. *)
Theorem attainment_monotone_in_threshold
    (rng : Type) (lognormal : R -> R -> rng -> R * rng)
    (fu_mu fu_sigma vd_mu vd_sigma clt_mu clt_sigma : R)
    (dose di target m1 m2 : R) :
  0 < m1 <= m2 -> 0 < di ->
  (forall fu vd clt : R,
      0 <= fu -> 0 <= vd -> 0 <= clt ->
      meets_target dose di m2 target fu vd clt = Ok true ->
      meets_target dose di m1 target fu vd clt = Ok true)
  /\ (forall (num_patients : Z) (c2 : nat) (s s' : rng),
        (0 < num_patients)%Z ->
        patients_loop rng lognormal fu_mu fu_sigma vd_mu vd_sigma clt_mu clt_sigma
          target (Z.to_nat num_patients) dose di m2 0 s = (Ok c2, s') ->
        exists c1,
          patients_loop rng lognormal fu_mu fu_sigma vd_mu vd_sigma clt_mu
            clt_sigma target (Z.to_nat num_patients) dose di m1 0 s = (Ok c1, s')
          /\ (c2 <= c1)%nat
          /\ INR c2 / IZR num_patients * 100 <= INR c1 / IZR num_patients * 100).
Proof.
  intros Hm Hdi. split.
  - intros fu vd clt _ Hvd Hclt E.
    destruct (meets_target_threshold_mono _ _ _ _ _ _ _ _ _ Hm Hvd Hclt Hdi E)
      as (b1 & E1 & Hb).
    rewrite E1, Hb; reflexivity.
  - intros num_patients c2 s s' Hn E.
    assert (G : forall n a b c2 s s',
               (a <= b)%nat ->
               patients_loop rng lognormal fu_mu fu_sigma vd_mu vd_sigma clt_mu
                 clt_sigma target n dose di m2 a s = (Ok c2, s') ->
               exists c1,
                 patients_loop rng lognormal fu_mu fu_sigma vd_mu vd_sigma clt_mu
                   clt_sigma target n dose di m1 b s = (Ok c1, s')
                 /\ (c2 <= c1)%nat).
    { clear num_patients c2 s s' Hn E.
      induction n as [| n IH]; intros a b c2 s s' Hab.
      - cbn. unfold ret. intros E. injection E as <- <-. eauto.
      - cbn [patients_loop]. unfold bind. rewrite !patient_run.
        destruct (draw_patient rng lognormal fu_mu fu_sigma vd_mu vd_sigma
                    clt_mu clt_sigma s) as [[[fu vd] clt] s1] eqn:Ed.
        cbn [fst snd].
        destruct (draw_patient_nonneg _ _ _ _ _ _ _ _ _ _ _ _ _ Ed)
          as (_ & Hvd & Hclt).
        destruct (meets_target dose di m2 target fu vd clt) as [b2 | e] eqn:E2;
          [| discriminate].
        destruct (meets_target_threshold_mono _ _ _ _ _ _ _ _ _ Hm Hvd Hclt Hdi E2)
          as (b1 & -> & Hb).
        apply IH. destruct b2; [rewrite Hb by reflexivity; lia |].
        destruct b1; lia. }
    destruct (G (Z.to_nat num_patients) 0%nat 0%nat c2 s s' (le_n 0) E)
      as (c1 & E1 & Hc).
    exists c1. repeat split; try assumption.
    apply Rmult_le_compat_r; [lra |].
    unfold Rdiv. apply Rmult_le_compat_r.
    + left. apply Rinv_0_lt_compat. apply IZR_lt. assumption.
    + apply le_INR. assumption.
Qed.

Lemma attainment_monotone_in_threshold_witness :
  exists c1,
    patients_loop (list R) tape_lognormal 0 0 0 0 0 0 0 (Z.to_nat 1) 2000 24 1 0 []
      = (Ok c1, [])
    /\ (1 <= c1)%nat
    /\ INR 1 / 1 * 100 <= INR c1 / 1 * 100.
Proof.
  refine (proj2 (attainment_monotone_in_threshold (list R) tape_lognormal
                   0 0 0 0 0 0 2000 24 0 1 2 _ _) 1%Z 1%nat [] [] _ _).
  - lra.
  - lra.
  - lia.
  - change (Z.to_nat 1) with 1%nat. cbn [patients_loop]. unfold bind.
    rewrite tape_patient_hit by lra. reflexivity.
Defined.

(** ** Shape of the engine's output *)

(** C10.  When a run completes, the keys of its output are exactly the input
    thresholds in input order (each at its first occurrence; the list itself
    when the thresholds are distinct), no key occurs twice, and the list of
    every threshold names the input regimens, one row each, in input order. *)
Theorem monte_carlo_simulation_shape
    (rng : Type) (lognormal : R -> R -> rng -> R * rng)
    (dose_intervals : list regimen)
    (fu_mean fu_std vd_mean vd_std clt_mean clt_std : R)
    (mics : list R) (num_patients : Z) (target : R)
    (results : list (R * list row)) (s s' : rng) :
  monte_carlo_simulation rng lognormal dose_intervals
    fu_mean fu_std vd_mean vd_std clt_mean clt_std mics num_patients target s
  = (Ok results, s') ->
  dict_keys results = rev (nodup Req_dec_T (rev mics))
  /\ (NoDup mics -> dict_keys results = mics)
  /\ NoDup (dict_keys results)
  /\ (forall m, In m (dict_keys results) <-> In m mics)
  /\ Forall (fun kv => map regimen_of (snd kv) = dose_intervals) results.
Proof.
  intros E. apply monte_carlo_simulation_inv in E.
  destruct E as (fu & vd & clt & _ & _ & _ & E).
  apply mics_loop_ok in E; [| constructor | constructor].
  destruct E as [Hkeys Hrows]. cbn [dict_keys map app] in Hkeys.
  split; [exact Hkeys |]. split; [| split; [| split]].
  - intros Hnd. rewrite Hkeys, nodup_fixed_point by (apply NoDup_rev; assumption).
    apply rev_involutive.
  - rewrite Hkeys. apply NoDup_rev, NoDup_nodup.
  - intros m. rewrite Hkeys, <- in_rev, nodup_In, <- in_rev. tauto.
  - eapply Forall_impl; [| exact Hrows]. intros kv [H _]. exact H.
Qed.

Lemma monte_carlo_simulation_shape_witness :
  dict_keys [(1, [(2000, 24, 100)])] = rev (nodup Req_dec_T (rev [1]))
  /\ (NoDup [1] -> dict_keys [(1, [(2000, 24, 100)])] = [1])
  /\ NoDup (dict_keys [(1, [(2000, 24, 100)])])
  /\ (forall m, In m (dict_keys [(1, [(2000, 24, 100)])]) <-> In m [1])
  /\ Forall (fun kv : R * list row => map regimen_of (snd kv) = [(2000, 24)])
       [(1, [(2000, 24, 100)])].
Proof.
  exact (monte_carlo_simulation_shape (list R) tape_lognormal
           [(2000, 24)] 1 0 1 0 1 0 [1] 1 0 [(1, [(2000, 24, 100)])] [] []
           tape_run_example).
Defined.

(** ** The response aggregator *)

Section Aggregator.

Variable mic_distribution : list (R * R).

Local Abbreviation get := (dict_get regimen_eq_dec).
Local Abbreviation set := (dict_set regimen_eq_dec).

(** One row: the regimen's entry, created at 0 when missing, grows by
    pta * weight; the body never raises. *)
Lemma cfr_row_ok (mic : R) (cfr : list (regimen * R)) (r : row) :
  cfr_row mic_distribution mic cfr r =
    Ok (set (regimen_of r)
          (dict_get_default regimen_eq_dec (regimen_of r) cfr 0
           + pta_of r * weight mic_distribution mic)
          cfr).
Proof.
  destruct r as [[dose di] pta].
  unfold cfr_row, regimen_of, pta_of, dict_get_default, dict_item, weight.
  destruct (get (dose, di) cfr) as [old |] eqn:Eg.
  - rewrite Eg. reflexivity.
  - rewrite dict_get_set_same. cbn [rbind]. rewrite dict_set_set. reflexivity.
Qed.

Lemma rows_sum_cons (w : R) (reg : regimen) (r : row) (t : list row) :
  rows_sum w reg (r :: t) =
    (if regimen_eq_dec (regimen_of r) reg then pta_of r * w else 0)
    + rows_sum w reg t.
Proof. reflexivity. Qed.

Lemma rows_sum_absent (w : R) (reg : regimen) (rows : list row) :
  ~ In reg (map regimen_of rows) -> rows_sum w reg rows = 0.
Proof.
  induction rows as [| r t IH]; [reflexivity |].
  rewrite rows_sum_cons. cbn [map In]. intros Hnot.
  destruct (regimen_eq_dec (regimen_of r) reg) as [E | N].
  - exfalso. apply Hnot. auto.
  - rewrite IH by tauto. lra.
Qed.

(** The inner loop over the rows of one threshold. *)
Lemma cfr_rows_ok (mic : R) (rows : list row) :
  forall cfr : list (regimen * R),
  exists cfr',
    rfold (cfr_row mic_distribution mic) rows cfr = Ok cfr'
    /\ forall reg,
         (In reg (map regimen_of rows) ->
          get reg cfr' =
            Some (dict_get_default regimen_eq_dec reg cfr 0
                  + rows_sum (weight mic_distribution mic) reg rows))
         /\ (~ In reg (map regimen_of rows) -> get reg cfr' = get reg cfr).
Proof.
  induction rows as [| r t IH]; intros cfr.
  - exists cfr. split; [reflexivity |]. intros reg. split; cbn; tauto.
  - cbn [rfold]. rewrite cfr_row_ok. cbn [rbind].
    destruct (IH (set (regimen_of r)
                    (dict_get_default regimen_eq_dec (regimen_of r) cfr 0
                     + pta_of r * weight mic_distribution mic) cfr))
      as (cfr' & -> & Hget).
    exists cfr'. split; [reflexivity |].
    intros reg. destruct (Hget reg) as [Hin Hout].
    rewrite rows_sum_cons. cbn [map In].
    destruct (regimen_eq_dec (regimen_of r) reg) as [E | N].
    + split; [intros _ | intros Hn; exfalso; apply Hn; left; exact E].
      subst reg.
      destruct (in_dec regimen_eq_dec (regimen_of r) (map regimen_of t))
        as [Ht | Ht].
      * rewrite (Hin Ht). unfold dict_get_default at 1.
        rewrite dict_get_set_same. f_equal. ring.
      * rewrite (Hout Ht), dict_get_set_same, (rows_sum_absent _ _ _ Ht).
        f_equal. ring.
    + split.
      * intros [Hr | Ht]; [contradiction |].
        rewrite (Hin Ht). unfold dict_get_default.
        rewrite dict_get_set_other by assumption. f_equal. ring.
      * intros Hn. rewrite Hout by (intros Ht; apply Hn; right; exact Ht).
        apply dict_get_set_other. assumption.
Qed.

Lemma results_sum_cons (reg : regimen) (kv : R * list row)
      (t : list (R * list row)) :
  results_sum mic_distribution reg (kv :: t) =
    rows_sum (weight mic_distribution (fst kv)) reg (snd kv)
    + results_sum mic_distribution reg t.
Proof. reflexivity. Qed.

Lemma all_regimens_cons (kv : R * list row) (t : list (R * list row)) :
  all_regimens (kv :: t) = map regimen_of (snd kv) ++ all_regimens t.
Proof. reflexivity. Qed.

Lemma results_sum_absent (reg : regimen) (results : list (R * list row)) :
  ~ In reg (all_regimens results) -> results_sum mic_distribution reg results = 0.
Proof.
  induction results as [| [mic rows] t IH]; [reflexivity |].
  rewrite results_sum_cons, all_regimens_cons, in_app_iff. cbn [fst snd].
  intros Hnot. rewrite rows_sum_absent, IH by tauto. lra.
Qed.

(** The outer loop over the thresholds. *)
Lemma cfr_results_ok (results : list (R * list row)) :
  forall cfr : list (regimen * R),
  exists cfr',
    rfold (fun cfr_results '(mic, combinations) =>
             rfold (cfr_row mic_distribution mic) combinations cfr_results)
          results cfr = Ok cfr'
    /\ forall reg,
         (In reg (all_regimens results) ->
          get reg cfr' =
            Some (dict_get_default regimen_eq_dec reg cfr 0
                  + results_sum mic_distribution reg results))
         /\ (~ In reg (all_regimens results) -> get reg cfr' = get reg cfr).
Proof.
  induction results as [| [mic rows] t IH]; intros cfr.
  - exists cfr. split; [reflexivity |]. intros reg. split; cbn; tauto.
  - cbn [rfold].
    destruct (cfr_rows_ok mic rows cfr) as (cfr1 & -> & H1). cbn [rbind].
    destruct (IH cfr1) as (cfr' & -> & H2).
    exists cfr'. split; [reflexivity |].
    intros reg. destruct (H1 reg) as [H1in H1out], (H2 reg) as [H2in H2out].
    rewrite results_sum_cons, all_regimens_cons, in_app_iff. cbn [fst snd].
    destruct (in_dec regimen_eq_dec reg (map regimen_of rows)) as [Hr | Hr],
             (in_dec regimen_eq_dec reg (all_regimens t)) as [Ht | Ht].
    + split; [intros _ | tauto].
      rewrite (H2in Ht). unfold dict_get_default at 1.
      rewrite (H1in Hr). f_equal. ring.
    + split; [intros _ | tauto].
      rewrite (H2out Ht), (H1in Hr), (results_sum_absent _ _ Ht).
      f_equal. ring.
    + split; [intros _ | tauto].
      rewrite (H2in Ht). unfold dict_get_default at 1.
      rewrite (H1out Hr), (rows_sum_absent _ _ _ Hr).
      unfold dict_get_default. f_equal. ring.
    + split; [tauto | intros _].
      rewrite (H2out Ht). apply H1out, Hr.
Qed.

(** With each regimen named at most once per threshold, the sum of the
    loops is the sum over the attainment results. *)
Lemma rows_sum_attainment (w : R) (reg : regimen) (rows : list row) :
  NoDup (map regimen_of rows) ->
  rows_sum w reg rows =
    match attainment reg rows with
    | Some pta => pta * w
    | None => 0
    end.
Proof.
  induction rows as [| r t IH]; [reflexivity |].
  rewrite rows_sum_cons. cbn [map attainment].
  intros Hnd. inversion Hnd as [| ? ? Hnot Hnd']; subst.
  destruct (regimen_eq_dec (regimen_of r) reg) as [E | N].
  - subst reg. rewrite (rows_sum_absent _ _ _ Hnot). lra.
  - rewrite IH by assumption. lra.
Qed.

Lemma results_sum_score (reg : regimen) (results : list (R * list row)) :
  Forall (fun kv => NoDup (map regimen_of (snd kv))) results ->
  results_sum mic_distribution reg results = score results mic_distribution reg.
Proof.
  induction 1 as [| [mic rows] t Hh Ht IH]; [reflexivity |].
  rewrite results_sum_cons, IH. cbn [fst snd] in *.
  rewrite rows_sum_attainment by assumption. reflexivity.
Qed.

End Aggregator.

Lemma attainment_In (reg : regimen) (rows : list row) (pta : R) :
  attainment reg rows = Some pta -> In reg (map regimen_of rows).
Proof.
  induction rows as [| r t IH]; cbn; [discriminate |].
  destruct (regimen_eq_dec (regimen_of r) reg); auto.
Qed.

Lemma all_regimens_In (reg : regimen) (kv : R * list row)
      (results : list (R * list row)) :
  In kv results -> In reg (map regimen_of (snd kv)) ->
  In reg (all_regimens results).
Proof.
  intros Hkv Hreg. unfold all_regimens. apply in_flat_map. eauto.
Qed.

Lemma score_cons (mic_distribution : list (R * R)) (reg : regimen)
      (kv : R * list row) (t : list (R * list row)) :
  score (kv :: t) mic_distribution reg =
    score_term mic_distribution reg kv + score t mic_distribution reg.
Proof. reflexivity. Qed.

Lemma score_term_weightless (mic_distribution : list (R * R)) (reg : regimen)
      (kv : R * list row) :
  weight mic_distribution (fst kv) = 0 -> score_term mic_distribution reg kv = 0.
Proof.
  intros Hw. unfold score_term. rewrite Hw.
  destruct (attainment reg (snd kv)); ring.
Qed.

Lemma score_weightless (mic_distribution : list (R * R)) (reg : regimen)
      (results : list (R * list row)) :
  (forall mic, In mic (dict_keys results) -> weight mic_distribution mic = 0) ->
  score results mic_distribution reg = 0.
Proof.
  induction results as [| kv t IH]; [reflexivity |].
  intros Hw. rewrite score_cons, score_term_weightless, IH.
  - ring.
  - intros mic Hin. apply Hw. right. exact Hin.
  - apply Hw. left. reflexivity.
Qed.

(** Only the threshold that carries weight contributes to the score. *)
Lemma score_single (mic_distribution : list (R * R)) (reg : regimen)
      (mic0 : R) (rows0 : list row) (results : list (R * list row)) :
  NoDup (dict_keys results) ->
  In (mic0, rows0) results ->
  (forall mic, In mic (dict_keys results) -> mic <> mic0 ->
               weight mic_distribution mic = 0) ->
  score results mic_distribution reg =
    score_term mic_distribution reg (mic0, rows0).
Proof.
  induction results as [| [k rows] t IH]; [intros _ [] |].
  unfold dict_keys. cbn [map fst]. fold (dict_keys t).
  intros Hnd Hin Hw. inversion Hnd as [| ? ? Hk Hnd']; subst.
  rewrite score_cons. destruct Hin as [E | Hin].
  - injection E as -> ->. rewrite score_weightless; [ring |].
    intros mic Hmic. apply Hw; [right; exact Hmic |].
    intros ->. contradiction.
  - rewrite IH; try assumption.
    + rewrite score_term_weightless; [ring |]. cbn [fst].
      apply Hw; [left; reflexivity |].
      intros ->. apply Hk. apply (in_map fst) in Hin. exact Hin.
    + intros mic Hmic. apply Hw. right. exact Hmic.
Qed.

(** C5.  With each regimen named at most once per threshold, the aggregator
    returns without error, and the entry of every regimen of the attainment
    results is the sum, over the thresholds of the attainment results, of
    attainment(t, regimen) * weight(t); a threshold missing from the
    susceptibility distribution has weight 0 and adds nothing. *)
Theorem calculate_cfr_weighted_sum
    (results : list (R * list row)) (mic_distribution : list (R * R)) :
  Forall (fun kv => NoDup (map regimen_of (snd kv))) results ->
  exists cfr_results,
    calculate_cfr results mic_distribution = Ok cfr_results
    /\ (forall reg,
          In reg (all_regimens results) ->
          dict_get regimen_eq_dec reg cfr_results
          = Some (score results mic_distribution reg))
    /\ (forall reg,
          ~ In reg (all_regimens results) ->
          dict_get regimen_eq_dec reg cfr_results = None)
    /\ (forall mic rows reg,
          dict_get Req_dec_T mic mic_distribution = None ->
          weight mic_distribution mic = 0
          /\ score_term mic_distribution reg (mic, rows) = 0).
Proof.
  intros Hnd. unfold calculate_cfr.
  destruct (cfr_results_ok mic_distribution results []) as (cfr & E & Hget).
  exists cfr. split; [exact E |]. split; [| split].
  - intros reg Hin. rewrite (proj1 (Hget reg) Hin).
    rewrite results_sum_score by assumption.
    unfold dict_get_default. cbn [dict_get]. f_equal. ring.
  - intros reg Hout. rewrite (proj2 (Hget reg) Hout). reflexivity.
  - intros mic rows reg Hnone.
    assert (Hw : weight mic_distribution mic = 0).
    { unfold weight, dict_get_default. rewrite Hnone. reflexivity. }
    split; [exact Hw | apply score_term_weightless; exact Hw].
Qed.

Lemma example_rows_distinct :
  Forall (fun kv : R * list row => NoDup (map regimen_of (snd kv)))
    [(1, [(2000, 24, 80); (1000, 12, 60)]); (2, [(2000, 24, 40); (1000, 12, 20)])].
Proof.
  assert (Hnd : forall a b : R,
             NoDup (map regimen_of [(2000, 24, a); (1000, 12, b)])).
  { intros a b. cbn. constructor.
    - intros [E | []]. injection E as E _. lra.
    - constructor; [intros [] | constructor]. }
  constructor; [apply Hnd |]. constructor; [apply Hnd | constructor].
Qed.

Lemma calculate_cfr_weighted_sum_witness :
  exists cfr_results,
    calculate_cfr
      [(1, [(2000, 24, 80); (1000, 12, 60)]); (2, [(2000, 24, 40); (1000, 12, 20)])]
      [(1, 1 / 2)] = Ok cfr_results
    /\ (forall reg,
          In reg (all_regimens
                    [(1, [(2000, 24, 80); (1000, 12, 60)]);
                     (2, [(2000, 24, 40); (1000, 12, 20)])]) ->
          dict_get regimen_eq_dec reg cfr_results
          = Some (score [(1, [(2000, 24, 80); (1000, 12, 60)]);
                         (2, [(2000, 24, 40); (1000, 12, 20)])]
                    [(1, 1 / 2)] reg))
    /\ (forall reg,
          ~ In reg (all_regimens
                      [(1, [(2000, 24, 80); (1000, 12, 60)]);
                       (2, [(2000, 24, 40); (1000, 12, 20)])]) ->
          dict_get regimen_eq_dec reg cfr_results = None)
    /\ (forall mic rows reg,
          dict_get Req_dec_T mic [(1, 1 / 2)] = None ->
          weight [(1, 1 / 2)] mic = 0
          /\ score_term [(1, 1 / 2)] reg (mic, rows) = 0).
Proof.
  exact (calculate_cfr_weighted_sum _ [(1, 1 / 2)] example_rows_distinct).
Defined.

(** C7.  If the susceptibility distribution gives weight 1 to one threshold
    of the attainment results and weight 0 to every other threshold there,
    the response score of a regimen equals its attainment result at that
    threshold. *)
Theorem calculate_cfr_single_threshold
    (results : list (R * list row)) (mic_distribution : list (R * R))
    (mic0 : R) (rows0 : list row) (reg : regimen) (pta : R) :
  NoDup (dict_keys results) ->
  Forall (fun kv => NoDup (map regimen_of (snd kv))) results ->
  In (mic0, rows0) results ->
  attainment reg rows0 = Some pta ->
  weight mic_distribution mic0 = 1 ->
  (forall mic, In mic (dict_keys results) -> mic <> mic0 ->
               weight mic_distribution mic = 0) ->
  exists cfr_results,
    calculate_cfr results mic_distribution = Ok cfr_results
    /\ dict_get regimen_eq_dec reg cfr_results = Some pta.
Proof.
  intros Hkeys Hrows Hin Hatt Hw1 Hw0. unfold calculate_cfr.
  destruct (cfr_results_ok mic_distribution results []) as (cfr & E & Hget).
  exists cfr. split; [exact E |].
  rewrite (proj1 (Hget reg)).
  - rewrite results_sum_score by assumption.
    rewrite (score_single mic_distribution reg mic0 rows0 results Hkeys Hin Hw0).
    unfold score_term, dict_get_default. cbn [fst snd dict_get].
    rewrite Hatt, Hw1. f_equal. ring.
  - apply (all_regimens_In reg (mic0, rows0)); [exact Hin |].
    apply (attainment_In _ _ _ Hatt).
Qed.

Lemma calculate_cfr_single_threshold_witness :
  exists cfr_results,
    calculate_cfr
      [(1, [(2000, 24, 80); (1000, 12, 60)]); (2, [(2000, 24, 40); (1000, 12, 20)])]
      [(1, 0); (2, 1)] = Ok cfr_results
    /\ dict_get regimen_eq_dec (2000, 24) cfr_results = Some 40.
Proof.
  apply (calculate_cfr_single_threshold
           [(1, [(2000, 24, 80); (1000, 12, 60)]);
            (2, [(2000, 24, 40); (1000, 12, 20)])]
           [(1, 0); (2, 1)] 2 [(2000, 24, 40); (1000, 12, 20)] (2000, 24) 40).
  - unfold dict_keys. cbn [map fst].
    constructor; [intros [E | []]; lra |].
    constructor; [intros [] | constructor].
  - exact example_rows_distinct.
  - right. left. reflexivity.
  - cbn [attainment regimen_of pta_of].
    destruct (regimen_eq_dec (2000, 24) (2000, 24)); [reflexivity | contradiction].
  - unfold weight, dict_get_default. cbn [dict_get].
    destruct (Req_dec_T 1 2); [lra |].
    destruct (Req_dec_T 2 2); [reflexivity | contradiction].
  - unfold dict_keys. cbn [map fst].
    intros mic [<- | [<- | []]] Hne; [| contradiction].
    unfold weight, dict_get_default. cbn [dict_get].
    destruct (Req_dec_T 1 1); [reflexivity | contradiction].
Defined.

(** * Further properties of the code *)

(** ** The exposure model beyond its contract *)

(** X1.  The message is returned exactly when the threshold-volume product is
    zero, the logarithm argument is not positive, the clearance is zero or
    the interval is zero. *)
Theorem calculate_ft_mic_message_iff (dose fu vd mic clt di : R) :
  calculate_ft_mic dose fu vd mic clt di = Ok (FtStr invalid_parameters)
  <-> (vd * mic = 0 \/ (dose * fu) / (vd * mic) <= 0 \/ clt = 0 \/ di = 0).
Proof.
  split.
  - intros E. unfold calculate_ft_mic in E.
    destruct (Req_dec_T (vd * mic) 0) as [Hd | Hd]; [auto |].
    destruct (Rlt_dec 0 (dose * fu / (vd * mic))) as [Hq | Hq]; [| right; left; lra].
    destruct (Req_dec_T clt 0) as [Hc | Hc]; [auto |].
    destruct (Req_dec_T di 0) as [Hi | Hi]; [auto |].
    rewrite (ft_mic_try_ok _ _ _ _ _ _ Hq Hc Hi) in E. discriminate.
  - intros H. unfold calculate_ft_mic.
    destruct (ft_mic_try_cases dose fu vd mic clt di) as [(r & _ & E) | [E | E]];
      rewrite E; try reflexivity.
    exfalso. apply ft_mic_try_inv in E. destruct E as (Hd & Hq & Hc & Hi & _).
    destruct H as [H | [H | [H | H]]]; try contradiction. lra.
Qed.

(** X2.  When the dose reaching the plasma does not exceed what the threshold
    asks of the volume (dose * fu <= vd * mic), the exposure is clamped to 0. *)
Theorem calculate_ft_mic_clamped (dose fu vd mic clt di : R) :
  0 < vd -> 0 < mic -> 0 < clt -> 0 < di ->
  0 < dose * fu <= vd * mic ->
  calculate_ft_mic dose fu vd mic clt di = Ok (FtNum 0).
Proof.
  intros Hvd Hmic Hclt Hdi [Hnum Hle].
  assert (Hden : 0 < vd * mic) by (apply Rmult_lt_0_compat; assumption).
  assert (Hq : 0 < dose * fu / (vd * mic)) by (apply Rdiv_lt_0_compat; assumption).
  assert (Hq1 : dose * fu / (vd * mic) <= 1).
  { apply (Rmult_le_reg_r (vd * mic)); [assumption |].
    unfold Rdiv. rewrite Rmult_assoc, Rinv_l by lra. lra. }
  unfold calculate_ft_mic.
  rewrite (ft_mic_try_ok _ _ _ _ _ _ Hq (Rgt_not_eq _ _ Hclt) (Rgt_not_eq _ _ Hdi)).
  assert (Hln : ln (dose * fu / (vd * mic)) <= 0).
  { rewrite <- ln_1. destruct Hq1 as [Hlt | Heq].
    - left. apply ln_increasing; assumption.
    - rewrite Heq. right; reflexivity. }
  assert (H2 : 0 < vd / clt) by (apply Rdiv_lt_0_compat; assumption).
  assert (H3 : 0 < 100 / di) by (apply Rdiv_lt_0_compat; lra).
  assert (Hprod : ln (dose * fu / (vd * mic)) * (vd / clt) * (100 / di) <= 0).
  { rewrite Rmult_assoc.
    replace 0 with (0 * (vd / clt * (100 / di))) by ring.
    apply Rmult_le_compat_r; [| assumption].
    left. apply Rmult_lt_0_compat; assumption. }
  unfold Py.max.
  destruct (Rlt_dec (ln (dose * fu / (vd * mic)) * (vd / clt) * (100 / di)) 0)
    as [Hneg | Hnn]; [reflexivity |].
  do 2 f_equal. lra.
Qed.

Lemma calculate_ft_mic_clamped_witness :
  calculate_ft_mic 100 (1 / 2) 10 8 1 24 = Ok (FtNum 0).
Proof.
  apply (calculate_ft_mic_clamped 100 (1 / 2) 10 8 1 24); lra.
Defined.



Lemma exp_le_iff_le_ln (x q : R) : 0 < q -> (exp x <= q <-> x <= ln q).
Proof.
  intros Hq. split; intros H.
  - destruct (Rle_dec x (ln q)) as [Hle | Hgt]; [assumption |].
    exfalso. apply Rnot_le_lt in Hgt. apply exp_increasing in Hgt.
    rewrite exp_ln in Hgt by assumption. lra.
  - destruct H as [Hlt | Heq].
    + apply exp_increasing in Hlt. rewrite exp_ln in Hlt by assumption. lra.
    + rewrite Heq, exp_ln by assumption. lra.
Qed.

(** X4.  For a positive target and positive parameters, a patient meets the
    target exactly when dose * fu reaches
    vd * mic * exp(target * di * clt / (100 * vd)). *)
Theorem meets_target_closed_form (dose di mic target fu vd clt : R) :
  0 < dose -> 0 < di -> 0 < mic -> 0 < target ->
  0 < fu -> 0 < vd -> 0 < clt ->
  meets_target dose di mic target fu vd clt =
    Ok (if Rle_dec (vd * mic * exp (target * di * clt / (100 * vd))) (dose * fu)
        then true else false).
Proof.
  intros Hdose Hdi Hmic Ht Hfu Hvd Hclt.
  assert (Hden : 0 < vd * mic) by (apply Rmult_lt_0_compat; assumption).
  assert (Hnum : 0 < dose * fu) by (apply Rmult_lt_0_compat; assumption).
  assert (Hq : 0 < dose * fu / (vd * mic)) by (apply Rdiv_lt_0_compat; assumption).
  rewrite (meets_target_num _ _ _ _ _ _ _ _
             (ft_mic_try_ok dose fu vd mic clt di Hq
                (Rgt_not_eq _ _ Hclt) (Rgt_not_eq _ _ Hdi))).
  set (L := ln (dose * fu / (vd * mic))).
  set (x := target * di * clt / (100 * vd)).
  assert (Hab : 0 < vd / clt * (100 / di)).
  { apply Rmult_lt_0_compat; apply Rdiv_lt_0_compat; lra. }
  assert (Hx : target = x * (vd / clt * (100 / di))).
  { unfold x. field. repeat split; lra. }
  assert (Hiff : vd * mic * exp x <= dose * fu <-> x <= L).
  { unfold L. rewrite <- (exp_le_iff_le_ln x _ Hq). split; intros H.
    - apply (Rmult_le_reg_r (vd * mic)); [assumption |].
      unfold Rdiv. rewrite Rmult_assoc, Rinv_l by lra. lra.
    - apply (Rmult_le_compat_r (vd * mic)) in H; [| lra].
      unfold Rdiv in H. rewrite Rmult_assoc, Rinv_l in H by lra. lra. }
  f_equal.
  destruct (Rle_dec (vd * mic * exp x) (dose * fu)) as [Hyes | Hno].
  - apply Hiff in Hyes.
    destruct (Rle_dec target (Py.max (L * (vd / clt) * (100 / di)) 0))
      as [_ | Hn]; [reflexivity |].
    exfalso. apply Hn. rewrite py_max_Rmax.
    eapply Rle_trans; [| apply Rmax_l].
    rewrite Hx, Rmult_assoc. apply Rmult_le_compat_r; lra.
  - destruct (Rle_dec target (Py.max (L * (vd / clt) * (100 / di)) 0))
      as [Hy | _]; [| reflexivity].
    exfalso. apply Hno, Hiff.
    unfold Py.max in Hy.
    destruct (Rlt_dec (L * (vd / clt) * (100 / di)) 0); [lra |].
    rewrite Hx, Rmult_assoc in Hy.
    apply (Rmult_le_reg_r (vd / clt * (100 / di))); assumption.
Qed.

Lemma meets_target_closed_form_witness :
  meets_target 2000 24 1 55 1 10 5 =
    Ok (if Rle_dec (10 * 1 * exp (55 * 24 * 5 / (100 * 10))) (2000 * 1)
        then true else false).
Proof.
  apply (meets_target_closed_form 2000 24 1 55 1 10 5); lra.
Defined.

(** A larger dose never loses a patient. *)
Lemma meets_target_dose_mono (di mic target fu vd clt dose1 dose2 : R) (b1 : bool) :
  dose1 <= dose2 -> 0 < mic -> 0 <= fu -> 0 <= vd -> 0 <= clt -> 0 < di ->
  meets_target dose1 di mic target fu vd clt = Ok b1 ->
  exists b2, meets_target dose2 di mic target fu vd clt = Ok b2
             /\ (b1 = true -> b2 = true).
Proof.
  intros Hd Hmic Hfu Hvd Hclt Hdi E.
  apply meets_target_inv in E. destruct E as (r1 & E1 & ->).
  apply ft_mic_try_inv in E1. destruct E1 as (Hden & Hq & Hc & _ & ->).
  assert (Hvd' : 0 < vd)
    by (destruct Hvd as [? | <-]; [assumption | exfalso; apply Hden; ring]).
  assert (Hclt' : 0 < clt) by lra.
  assert (Hden' : 0 < vd * mic) by (apply Rmult_lt_0_compat; assumption).
  assert (Hnum : 0 < dose1 * fu).
  { replace (dose1 * fu) with (dose1 * fu / (vd * mic) * (vd * mic)) by (field; lra).
    apply Rmult_lt_0_compat; assumption. }
  assert (Hnum2 : dose1 * fu <= dose2 * fu) by (apply Rmult_le_compat_r; assumption).
  assert (Hq2 : 0 < dose2 * fu / (vd * mic)) by (apply Rdiv_lt_0_compat; lra).
  assert (Hle : dose1 * fu / (vd * mic) <= dose2 * fu / (vd * mic)).
  { unfold Rdiv. apply Rmult_le_compat_r; [| assumption].
    left. apply Rinv_0_lt_compat. assumption. }
  rewrite (meets_target_num _ _ _ _ _ _ _ _
             (ft_mic_try_ok dose2 fu vd mic clt di Hq2 Hc (Rgt_not_eq _ _ Hdi))).
  eexists. split; [reflexivity |].
  assert (Hmono :
    Py.max (ln (dose1 * fu / (vd * mic)) * (vd / clt) * (100 / di)) 0
    <= Py.max (ln (dose2 * fu / (vd * mic)) * (vd / clt) * (100 / di)) 0).
  { apply py_max_mono.
    assert (Hln : ln (dose1 * fu / (vd * mic)) <= ln (dose2 * fu / (vd * mic))).
    { destruct Hle as [Hlt | Heq].
      - left. apply ln_increasing; assumption.
      - rewrite Heq. right; reflexivity. }
    assert (H2 : 0 < vd / clt) by (apply Rdiv_lt_0_compat; assumption).
    assert (H3 : 0 < 100 / di) by (apply Rdiv_lt_0_compat; lra).
    rewrite !Rmult_assoc. apply Rmult_le_compat_r; [| assumption].
    left. apply Rmult_lt_0_compat; assumption. }
  destruct (Rle_dec target _), (Rle_dec target _); auto; try discriminate.
  lra.
Qed.

(** Two settings of (dose, interval, threshold) compared patient by patient
    compare the same way on the success counts of the same draws. *)
Lemma patients_loop_compare
    (rng : Type) (lognormal : R -> R -> rng -> R * rng)
    (fu_mu fu_sigma vd_mu vd_sigma clt_mu clt_sigma target : R)
    (dose di mic dose' di' mic' : R) :
  (forall fu vd clt b,
      0 <= fu -> 0 <= vd -> 0 <= clt ->
      meets_target dose di mic target fu vd clt = Ok b ->
      exists b', meets_target dose' di' mic' target fu vd clt = Ok b'
                 /\ (b = true -> b' = true)) ->
  forall (n a b c : nat) (s s' : rng),
    (a <= b)%nat ->
    patients_loop rng lognormal fu_mu fu_sigma vd_mu vd_sigma clt_mu clt_sigma
      target n dose di mic a s = (Ok c, s') ->
    exists c',
      patients_loop rng lognormal fu_mu fu_sigma vd_mu vd_sigma clt_mu clt_sigma
        target n dose' di' mic' b s = (Ok c', s')
      /\ (c <= c')%nat.
Proof.
  intros Hpt. induction n as [| n IH]; intros a b c s s' Hab.
  - cbn. unfold ret. intros E. injection E as <- <-. eauto.
  - cbn [patients_loop]. unfold bind. rewrite !patient_run.
    destruct (draw_patient rng lognormal fu_mu fu_sigma vd_mu vd_sigma
                clt_mu clt_sigma s) as [[[fu vd] clt] s1] eqn:Ed.
    cbn [fst snd].
    destruct (draw_patient_nonneg _ _ _ _ _ _ _ _ _ _ _ _ _ Ed)
      as (Hfu & Hvd & Hclt).
    destruct (meets_target dose di mic target fu vd clt) as [b1 | e] eqn:E1;
      [| discriminate].
    destruct (Hpt fu vd clt b1 Hfu Hvd Hclt E1) as (b2 & -> & Hb).
    apply IH. destruct b1; [rewrite Hb by reflexivity; lia |].
    destruct b2; lia.
Qed.

(** X5.  For a fixed positive threshold and interval, raising the dose keeps every
    patient that met the target, so on the same draws the success count and
    the percentage do not fall. *)
Theorem attainment_monotone_in_dose
    (rng : Type) (lognormal : R -> R -> rng -> R * rng)
    (fu_mu fu_sigma vd_mu vd_sigma clt_mu clt_sigma : R)
    (di mic target dose1 dose2 : R) :
  dose1 <= dose2 -> 0 < mic -> 0 < di ->
  (forall fu vd clt : R,
      0 <= fu -> 0 <= vd -> 0 <= clt ->
      meets_target dose1 di mic target fu vd clt = Ok true ->
      meets_target dose2 di mic target fu vd clt = Ok true)
  /\ (forall (num_patients : Z) (c1 : nat) (s s' : rng),
        (0 < num_patients)%Z ->
        patients_loop rng lognormal fu_mu fu_sigma vd_mu vd_sigma clt_mu clt_sigma
          target (Z.to_nat num_patients) dose1 di mic 0 s = (Ok c1, s') ->
        exists c2,
          patients_loop rng lognormal fu_mu fu_sigma vd_mu vd_sigma clt_mu
            clt_sigma target (Z.to_nat num_patients) dose2 di mic 0 s = (Ok c2, s')
          /\ (c1 <= c2)%nat
          /\ INR c1 / IZR num_patients * 100 <= INR c2 / IZR num_patients * 100).
Proof.
  intros Hd Hmic Hdi. split.
  - intros fu vd clt Hfu Hvd Hclt E.
    destruct (meets_target_dose_mono _ _ _ _ _ _ _ _ _ Hd Hmic Hfu Hvd Hclt Hdi E)
      as (b2 & E2 & Hb).
    rewrite E2, Hb; reflexivity.
  - intros num_patients c1 s s' Hn E.
    destruct (patients_loop_compare rng lognormal fu_mu fu_sigma vd_mu vd_sigma
                clt_mu clt_sigma target dose1 di mic dose2 di mic
                (fun fu vd clt b Hfu Hvd Hclt =>
                   meets_target_dose_mono di mic target fu vd clt dose1 dose2 b
                     Hd Hmic Hfu Hvd Hclt Hdi)
                (Z.to_nat num_patients) 0%nat 0%nat c1 s s' (le_n 0) E)
      as (c2 & E2 & Hc).
    exists c2. repeat split; try assumption.
    apply Rmult_le_compat_r; [lra |].
    unfold Rdiv. apply Rmult_le_compat_r.
    + left. apply Rinv_0_lt_compat. apply IZR_lt. assumption.
    + apply le_INR. assumption.
Qed.

Lemma attainment_monotone_in_dose_witness :
  exists c2,
    patients_loop (list R) tape_lognormal 0 0 0 0 0 0 0 (Z.to_nat 1) 4000 24 1 0 []
      = (Ok c2, [])
    /\ (1 <= c2)%nat
    /\ INR 1 / 1 * 100 <= INR c2 / 1 * 100.
Proof.
  refine (proj2 (attainment_monotone_in_dose (list R) tape_lognormal
                   0 0 0 0 0 0 24 1 0 2000 4000 _ _ _) 1%Z 1%nat [] [] _ _).
  - lra.
  - lra.
  - lra.
  - lia.
  - change (Z.to_nat 1) with 1%nat. cbn [patients_loop]. unfold bind.
    rewrite tape_patient_hit by lra. reflexivity.
Defined.

(** ** The converter beyond its contract *)

(** X6.  The converter raises exactly on a zero mean: ZeroDivisionError when the
    standard deviation is zero too, ValueError otherwise. *)
Theorem calculate_lognormal_params_raises_iff (mean std : R) (e : exn) :
  calculate_lognormal_params mean std = Raise e
  <-> mean = 0 /\ ((std = 0 /\ e = ZeroDivisionError)
                   \/ (std <> 0 /\ e = ValueError)).
Proof.
  split.
  - intros E. destruct (Req_dec_T mean 0) as [-> | Hm].
    + split; [reflexivity |].
      rewrite calculate_lognormal_params_zero in E.
      destruct (Req_dec_T std 0); injection E as <-; auto.
    + rewrite calculate_lognormal_params_nonzero in E by assumption.
      discriminate.
  - intros [-> H]. rewrite calculate_lognormal_params_zero.
    destruct (Req_dec_T std 0), H as [[Hs ->] | [Hs ->]];
      try reflexivity; contradiction.
Qed.






(** ** More about the engine's loops *)

Section EngineLoops.

Variable rng : Type.
Variable lognormal : R -> R -> rng -> R * rng.
Variables fu_mu fu_sigma vd_mu vd_sigma clt_mu clt_sigma : R.
Variable dose_intervals : list regimen.
Variable num_patients : Z.
Variable target : R.

Local Abbreviation drawP :=
  (draw_patient rng lognormal fu_mu fu_sigma vd_mu vd_sigma clt_mu clt_sigma).
Local Abbreviation cohortP :=
  (cohort rng lognormal fu_mu fu_sigma vd_mu vd_sigma clt_mu clt_sigma).
Local Abbreviation patientsP :=
  (patients_loop rng lognormal fu_mu fu_sigma vd_mu vd_sigma clt_mu clt_sigma
     target).
Local Abbreviation regimenP :=
  (regimen_body rng lognormal fu_mu fu_sigma vd_mu vd_sigma clt_mu clt_sigma
     num_patients target).
Local Abbreviation regimensP :=
  (regimens_loop rng lognormal fu_mu fu_sigma vd_mu vd_sigma clt_mu clt_sigma
     num_patients target).
Local Abbreviation micsP :=
  (mics_loop rng lognormal fu_mu fu_sigma vd_mu vd_sigma clt_mu clt_sigma
     dose_intervals num_patients target).

Lemma patients_loop_succ (n : nat) (dose di mic : R) (c : nat) (s : rng) :
  patientsP (S n) dose di mic c s =
    match meets_target dose di mic target
            (fst (fst (fst (drawP s)))) (snd (fst (fst (drawP s))))
            (snd (fst (drawP s))) with
    | Ok b => patientsP n dose di mic (if b then S c else c) (snd (drawP s))
    | Raise e => (Raise e, snd (drawP s))
    end.
Proof.
  cbn [patients_loop]. unfold bind at 1. rewrite patient_run.
  destruct (meets_target dose di mic target _ _ _); reflexivity.
Qed.

(** What one regimen does, whatever the outcome. *)
Lemma regimen_body_run (mic dose di : R) (results : list (R * list row))
      (s : rng) :
  regimenP mic results (dose, di) s =
    match patientsP (Z.to_nat num_patients) dose di mic 0 s with
    | (Ok c, s1) =>
        if Req_dec_T (IZR num_patients) 0 then (Raise ZeroDivisionError, s1)
        else
          match dict_get Req_dec_T mic results with
          | Some old =>
              (Ok (dict_set Req_dec_T mic
                     (old ++ [(dose, di, INR c / IZR num_patients * 100)])
                     results), s1)
          | None => (Raise KeyError, s1)
          end
    | (Raise e, s1) => (Raise e, s1)
    end.
Proof.
  unfold regimen_body. unfold bind at 1.
  destruct (patientsP (Z.to_nat num_patients) dose di mic 0 s) as [[c | e] s1];
    [| reflexivity].
  unfold bind, lift, Py.div.
  destruct (Req_dec_T (IZR num_patients) 0); [reflexivity |].
  unfold append_row, dict_item.
  destruct (dict_get Req_dec_T mic results); reflexivity.
Qed.

Lemma IZR_zero_iff (z : Z) : IZR z = 0 <-> z = 0%Z.
Proof.
  split; [apply eq_IZR_R0 | intros ->; reflexivity].
Qed.

(** The patient loop can fail in one way only. *)
Lemma patients_loop_raises (n : nat) (dose di mic : R) :
  forall (c : nat) (s s' : rng) (e : exn),
    patientsP n dose di mic c s = (Raise e, s') -> e = TypeError.
Proof.
  induction n as [| n IH]; intros c s s' e.
  - cbn. unfold ret. discriminate.
  - rewrite patients_loop_succ.
    destruct (meets_target_cases dose di mic target
                (fst (fst (fst (drawP s)))) (snd (fst (fst (drawP s))))
                (snd (fst (drawP s)))) as [(b & ->) | ->].
    + apply IH.
    + intros E. injection E as <- _. reflexivity.
Qed.

(** The generator state after a patient loop, completed or not, is some
    prefix of the cohort; after a completed one it is the whole cohort. *)
Lemma cohort_state_add (a b : nat) (s : rng) :
  snd (cohortP (a + b) s) = snd (cohortP b (snd (cohortP a s))).
Proof.
  revert s. induction a as [| a IH]; intros s; [reflexivity |].
  cbn [Nat.add cohort]. destruct (drawP s) as [p s1].
  specialize (IH s1).
  destruct (cohortP (a + b) s1) as [ps s2].
  destruct (cohortP a s1) as [ps' s2']. cbn [snd] in *. exact IH.
Qed.

(** With a target that is not positive, every patient of a completed loop is
    a success. *)
Lemma patients_loop_all_hit (n : nat) (dose di mic : R) :
  target <= 0 ->
  forall (c c' : nat) (s s' : rng),
    patientsP n dose di mic c s = (Ok c', s') -> c' = (c + n)%nat.
Proof.
  intros Ht. induction n as [| n IH]; intros c c' s s'.
  - cbn. unfold ret. intros E. injection E as <- _. lia.
  - rewrite patients_loop_succ.
    destruct (meets_target dose di mic target _ _ _) as [b | e] eqn:Em;
      [| discriminate].
    apply meets_target_inv in Em. destruct Em as (r & Er & ->).
    apply ft_mic_try_inv in Er. destruct Er as (_ & _ & _ & _ & ->).
    destruct (Rle_dec target _) as [_ | Hn].
    + intros E. apply IH in E. lia.
    + exfalso. apply Hn. eapply Rle_trans; [exact Ht | apply py_max_nonneg].
Qed.

Section Rows.

(** A property of the rows that every regimen iteration establishes is a
    property of all rows of the output. *)
Variable P : row -> Prop.
Hypothesis regimen_body_P :
  forall (mic dose di : R) (c : nat) (s s1 : rng),
    patientsP (Z.to_nat num_patients) dose di mic 0 s = (Ok c, s1) ->
    num_patients <> 0%Z ->
    P (dose, di, INR c / IZR num_patients * 100).

Lemma regimens_loop_rows (l : list regimen) (mic : R) :
  forall (results results' : list (R * list row)) (s s' : rng) (old : list row),
    regimensP l mic results s = (Ok results', s') ->
    dict_get Req_dec_T mic results = Some old ->
    exists rows,
      results' = dict_set Req_dec_T mic (old ++ rows) results
      /\ Forall P rows.
Proof.
  induction l as [| [dose di] t IH]; intros results results' s s' old.
  - cbn. unfold ret. intros E Hold. injection E as <- <-. exists [].
    rewrite app_nil_r, dict_set_get_same by assumption. auto.
  - rewrite regimens_loop_cons, regimen_body_run.
    destruct (patientsP (Z.to_nat num_patients) dose di mic 0 s)
      as [[c | e] s1] eqn:Ep; [| discriminate].
    destruct (Req_dec_T (IZR num_patients) 0) as [Hz | Hnz]; [discriminate |].
    intros E Hold. rewrite Hold in E.
    eapply IH in E; [| apply dict_get_set_same].
    destruct E as (rows & -> & Hrows).
    eexists (_ :: rows). rewrite dict_set_set, <- app_assoc. cbn [app].
    split; [reflexivity |]. constructor; [| assumption].
    apply (regimen_body_P mic dose di c s s1 Ep).
    intros Hn. apply Hnz. rewrite Hn. reflexivity.
Qed.

Lemma mics_loop_rows (mics : list R) :
  forall (results results' : list (R * list row)) (s s' : rng),
    micsP mics results s = (Ok results', s') ->
    Forall (fun kv => Forall P (snd kv)) results ->
    Forall (fun kv => Forall P (snd kv)) results'.
Proof.
  induction mics as [| mic t IH]; intros results results' s s'.
  - cbn. unfold ret. intros E H. injection E as <- _. exact H.
  - rewrite mics_loop_cons.
    destruct (regimensP dose_intervals mic (dict_set Req_dec_T mic [] results) s)
      as [[r1 | e] s1] eqn:Er; [| discriminate].
    intros E H. apply (IH _ _ _ _ E).
    eapply regimens_loop_rows in Er; [| apply dict_get_set_same].
    destruct Er as (rows & -> & Hrows). rewrite dict_set_set. cbn [app].
    apply dict_set_Forall; [intros k'; exact Hrows | exact H].
Qed.

End Rows.

(** How far the generator has advanced after the loops. *)
Lemma regimens_loop_state (l : list regimen) (mic : R) :
  forall (results results' : list (R * list row)) (s s' : rng),
    regimensP l mic results s = (Ok results', s') ->
    s' = snd (cohortP (List.length l * Z.to_nat num_patients) s).
Proof.
  induction l as [| [dose di] t IH]; intros results results' s s'.
  - cbn. unfold ret. intros E. injection E as _ <-. reflexivity.
  - rewrite regimens_loop_cons.
    destruct (regimenP mic results (dose, di) s) as [[r1 | e] s1] eqn:Eb;
      [| discriminate].
    apply regimen_body_ok in Eb. destruct Eb as (_ & _ & _ & -> & _).
    intros E. apply IH in E. rewrite E.
    cbn [List.length Nat.mul]. rewrite cohort_state_add. reflexivity.
Qed.

Lemma mics_loop_state (mics : list R) :
  forall (results results' : list (R * list row)) (s s' : rng),
    micsP mics results s = (Ok results', s') ->
    s' = snd (cohortP (List.length mics
                       * (List.length dose_intervals * Z.to_nat num_patients)) s).
Proof.
  induction mics as [| mic t IH]; intros results results' s s'.
  - cbn. unfold ret. intros E. injection E as _ <-. reflexivity.
  - rewrite mics_loop_cons.
    destruct (regimensP dose_intervals mic (dict_set Req_dec_T mic [] results) s)
      as [[r1 | e] s1] eqn:Er; [| discriminate].
    apply regimens_loop_state in Er. intros E. apply IH in E.
    rewrite E, Er. cbn [List.length Nat.mul]. rewrite cohort_state_add.
    reflexivity.
Qed.

(** The loops never raise KeyError, and raise ZeroDivisionError only for a
    patient count of zero. *)
Lemma regimens_loop_raises (l : list regimen) (mic : R) :
  forall (results : list (R * list row)) (s s' : rng) (e : exn),
    regimensP l mic results s = (Raise e, s') ->
    dict_get Req_dec_T mic results <> None ->
    e = TypeError \/ (e = ZeroDivisionError /\ num_patients = 0%Z).
Proof.
  induction l as [| [dose di] t IH]; intros results s s' e.
  - cbn. unfold ret. discriminate.
  - rewrite regimens_loop_cons, regimen_body_run.
    destruct (patientsP (Z.to_nat num_patients) dose di mic 0 s)
      as [[c | e1] s1] eqn:Ep.
    + destruct (Req_dec_T (IZR num_patients) 0) as [Hz | Hnz].
      * intros E _. injection E as <- _. right.
        split; [reflexivity | apply IZR_zero_iff; assumption].
      * destruct (dict_get Req_dec_T mic results) as [old |] eqn:Eg.
        -- intros E _. apply IH in E; [assumption |].
           rewrite dict_get_set_same. discriminate.
        -- intros _ Hsome. contradiction.
    + intros E _. injection E as <- _. left.
      apply (patients_loop_raises _ _ _ _ _ _ _ _ Ep).
Qed.

Lemma mics_loop_raises (mics : list R) :
  forall (results : list (R * list row)) (s s' : rng) (e : exn),
    micsP mics results s = (Raise e, s') ->
    e = TypeError \/ (e = ZeroDivisionError /\ num_patients = 0%Z).
Proof.
  induction mics as [| mic t IH]; intros results s s' e.
  - cbn. unfold ret. discriminate.
  - rewrite mics_loop_cons.
    destruct (regimensP dose_intervals mic (dict_set Req_dec_T mic [] results) s)
      as [[r1 | e1] s1] eqn:Er.
    + apply IH.
    + intros E. injection E as <- _.
      apply (regimens_loop_raises _ _ _ _ _ _ Er).
      rewrite dict_get_set_same. discriminate.
Qed.

End EngineLoops.

(** ** When a run completes *)

Section Completion.

Variable rng : Type.
Variable lognormal : R -> R -> rng -> R * rng.
Variables fu_mu fu_sigma vd_mu vd_sigma clt_mu clt_sigma : R.
Variable dose_intervals : list regimen.
Variable num_patients : Z.
Variable target : R.

Local Abbreviation drawP :=
  (draw_patient rng lognormal fu_mu fu_sigma vd_mu vd_sigma clt_mu clt_sigma).
Local Abbreviation patientsP :=
  (patients_loop rng lognormal fu_mu fu_sigma vd_mu vd_sigma clt_mu clt_sigma
     target).
Local Abbreviation regimensP :=
  (regimens_loop rng lognormal fu_mu fu_sigma vd_mu vd_sigma clt_mu clt_sigma
     num_patients target).
Local Abbreviation micsP :=
  (mics_loop rng lognormal fu_mu fu_sigma vd_mu vd_sigma clt_mu clt_sigma
     dose_intervals num_patients target).

(** The regimen loop completes when the patient loop of each of its regimens
    does and the patient count is not zero. *)
Lemma regimens_loop_completes (l : list regimen) (mic : R) :
  num_patients <> 0%Z ->
  (forall r s, In r l ->
     exists c s1,
       patientsP (Z.to_nat num_patients) (fst r) (snd r) mic 0 s = (Ok c, s1)) ->
  forall (results : list (R * list row)) (s : rng),
    dict_get Req_dec_T mic results <> None ->
    exists results' s', regimensP l mic results s = (Ok results', s').
Proof.
  intros Hn. induction l as [| [dose di] t IH]; intros Hloop results s Hkey.
  - cbn. unfold ret. eauto.
  - rewrite regimens_loop_cons, regimen_body_run.
    destruct (Hloop (dose, di) s (or_introl eq_refl)) as (c & s1 & Ep).
    cbn [fst snd] in Ep. rewrite Ep.
    destruct (Req_dec_T (IZR num_patients) 0) as [Hz | _].
    { exfalso. apply Hn. apply IZR_zero_iff. assumption. }
    destruct (dict_get Req_dec_T mic results) as [old |]; [| contradiction].
    apply IH.
    + intros r s0 Hr. apply Hloop. right. assumption.
    + rewrite dict_get_set_same. discriminate.
Qed.

Lemma mics_loop_completes (mics : list R) :
  num_patients <> 0%Z ->
  (forall mic r s, In mic mics -> In r dose_intervals ->
     exists c s1,
       patientsP (Z.to_nat num_patients) (fst r) (snd r) mic 0 s = (Ok c, s1)) ->
  forall (results : list (R * list row)) (s : rng),
    exists results' s', micsP mics results s = (Ok results', s').
Proof.
  intros Hn. induction mics as [| mic t IH]; intros Hloop results s.
  - cbn. unfold ret. eauto.
  - rewrite mics_loop_cons.
    destruct (regimens_loop_completes dose_intervals mic Hn
                (fun r s0 Hr => Hloop mic r s0 (or_introl eq_refl) Hr)
                (dict_set Req_dec_T mic [] results) s)
      as (r1 & s1 & ->).
    + rewrite dict_get_set_same. discriminate.
    + apply IH. intros mic' r s0 Hm Hr. apply Hloop; [right |]; assumption.
Qed.

(** A generator that only produces positive values never causes a domain
    error for a positive dose and threshold and a nonzero interval. *)
Hypothesis lognormal_pos : forall mu sigma s, 0 < fst (lognormal mu sigma s).

Lemma draw_patient_pos (s : rng) :
  0 < fst (fst (fst (drawP s))) /\ 0 < snd (fst (fst (drawP s)))
  /\ 0 < snd (fst (drawP s)).
Proof.
  unfold draw_patient.
  pose proof (lognormal_pos fu_mu fu_sigma s) as H1.
  destruct (lognormal fu_mu fu_sigma s) as [a s1].
  pose proof (lognormal_pos vd_mu vd_sigma s1) as H2.
  destruct (lognormal vd_mu vd_sigma s1) as [b s2].
  pose proof (lognormal_pos clt_mu clt_sigma s2) as H3.
  destruct (lognormal clt_mu clt_sigma s2) as [c s3].
  cbn in *. rewrite !py_max_pos by assumption. auto.
Qed.

Lemma patients_loop_completes (n : nat) (dose di mic : R) :
  0 < dose -> 0 < mic -> di <> 0 ->
  forall (c : nat) (s : rng),
    exists c' s', patientsP n dose di mic c s = (Ok c', s').
Proof.
  intros Hdose Hmic Hdi. induction n as [| n IH]; intros c s.
  - cbn. unfold ret. eauto.
  - rewrite patients_loop_succ.
    destruct (draw_patient_pos s) as (Hfu & Hvd & Hclt).
    assert (Hq : 0 < dose * fst (fst (fst (drawP s)))
                     / (snd (fst (fst (drawP s))) * mic)).
    { apply Rdiv_lt_0_compat; apply Rmult_lt_0_compat; assumption. }
    rewrite (meets_target_num _ _ _ _ _ _ _ _
               (ft_mic_try_ok dose _ _ mic _ di Hq (Rgt_not_eq _ _ Hclt) Hdi)).
    apply IH.
Qed.

End Completion.

(** ** Runs of the engine: values, failures, edge inputs *)

(** X9.  Every percentage of a completed run is k / N * 100 for a success count
    k between 0 and the number of patients drawn, and lies in [0, 100]. *)
Theorem monte_carlo_simulation_pta_values
    (rng : Type) (lognormal : R -> R -> rng -> R * rng)
    (dose_intervals : list regimen)
    (fu_mean fu_std vd_mean vd_std clt_mean clt_std : R)
    (mics : list R) (num_patients : Z) (target : R)
    (results : list (R * list row)) (s s' : rng) :
  monte_carlo_simulation rng lognormal dose_intervals
    fu_mean fu_std vd_mean vd_std clt_mean clt_std mics num_patients target s
  = (Ok results, s') ->
  Forall (fun kv =>
            Forall (fun r =>
                      (exists k : nat,
                          (k <= Z.to_nat num_patients)%nat
                          /\ pta_of r = INR k / IZR num_patients * 100)
                      /\ 0 <= pta_of r <= 100)
                   (snd kv))
         results.
Proof.
  intros E. apply monte_carlo_simulation_inv in E.
  destruct E as (fu & vd & clt & _ & _ & _ & E).
  eapply mics_loop_rows in E; [exact E | | constructor].
  intros mic dose di c s0 s1 Ep Hn. cbn [pta_of].
  apply patients_loop_ok in Ep. destruct Ep as [_ ->]. cbn [Nat.add].
  assert (Hle : (successes target dose di mic
                   (fst (cohort rng lognormal (fst fu) (snd fu) (fst vd) (snd vd)
                           (fst clt) (snd clt) (Z.to_nat num_patients) s0))
                 <= Z.to_nat num_patients)%nat).
  { rewrite <- (cohort_length rng lognormal (fst fu) (snd fu) (fst vd) (snd vd)
                  (fst clt) (snd clt) (Z.to_nat num_patients) s0) at 2.
    apply successes_le_length. }
  split; [eexists; split; [exact Hle | reflexivity] |].
  apply pta_in_range; assumption.
Qed.

Lemma monte_carlo_simulation_pta_values_witness :
  Forall (fun kv : R * list row =>
            Forall (fun r =>
                      (exists k : nat,
                          (k <= Z.to_nat 1)%nat /\ pta_of r = INR k / 1 * 100)
                      /\ 0 <= pta_of r <= 100)
                   (snd kv))
         [(1, [(2000, 24, 100)])].
Proof.
  exact (monte_carlo_simulation_pta_values (list R) tape_lognormal
           [(2000, 24)] 1 0 1 0 1 0 [1] 1 0 [(1, [(2000, 24, 100)])] [] []
           tape_run_example).
Defined.

(** X10.  A completed run has drawn exactly len(mics) * len(dose_intervals) * N
    patients from the generator, three values each, in that order. *)
Theorem monte_carlo_simulation_draws
    (rng : Type) (lognormal : R -> R -> rng -> R * rng)
    (dose_intervals : list regimen)
    (fu_mean fu_std vd_mean vd_std clt_mean clt_std : R)
    (fu_mu fu_sigma vd_mu vd_sigma clt_mu clt_sigma : R)
    (mics : list R) (num_patients : Z) (target : R)
    (results : list (R * list row)) (s s' : rng) :
  calculate_lognormal_params fu_mean fu_std = Ok (fu_mu, fu_sigma) ->
  calculate_lognormal_params vd_mean vd_std = Ok (vd_mu, vd_sigma) ->
  calculate_lognormal_params clt_mean clt_std = Ok (clt_mu, clt_sigma) ->
  monte_carlo_simulation rng lognormal dose_intervals
    fu_mean fu_std vd_mean vd_std clt_mean clt_std mics num_patients target s
  = (Ok results, s') ->
  s' = snd (cohort rng lognormal fu_mu fu_sigma vd_mu vd_sigma clt_mu clt_sigma
              (List.length mics
               * (List.length dose_intervals * Z.to_nat num_patients)) s).
Proof.
  intros E1 E2 E3 E.
  rewrite (monte_carlo_simulation_converted _ _ _ _ _ _ _ _ _ _ _ _ _ _ _ _
             E1 E2 E3) in E.
  cbn [fst snd] in E. apply mics_loop_state in E. exact E.
Qed.

Lemma monte_carlo_simulation_draws_witness :
  @nil R =
  snd (cohort (list R) tape_lognormal
         (ln (1 ^ 2 / sqrt (0 ^ 2 + 1 ^ 2))) (sqrt (ln (1 + 0 ^ 2 / 1 ^ 2)))
         (ln (1 ^ 2 / sqrt (0 ^ 2 + 1 ^ 2))) (sqrt (ln (1 + 0 ^ 2 / 1 ^ 2)))
         (ln (1 ^ 2 / sqrt (0 ^ 2 + 1 ^ 2))) (sqrt (ln (1 + 0 ^ 2 / 1 ^ 2)))
         (List.length [1] * (List.length [(2000, 24)] * Z.to_nat 1)) []).
Proof.
  exact (monte_carlo_simulation_draws (list R) tape_lognormal
           [(2000, 24)] 1 0 1 0 1 0 _ _ _ _ _ _ [1] 1 0
           [(1, [(2000, 24, 100)])] [] []
           (calculate_lognormal_params_nonzero 1 0 R1_neq_R0)
           (calculate_lognormal_params_nonzero 1 0 R1_neq_R0)
           (calculate_lognormal_params_nonzero 1 0 R1_neq_R0)
           tape_run_example).
Defined.

(** X11.  A run never fails with KeyError.  With nonzero population means and a
    nonzero patient count its only failure is the TypeError of comparing the
    exposure model's message with the target. *)
Theorem monte_carlo_simulation_failures
    (rng : Type) (lognormal : R -> R -> rng -> R * rng)
    (dose_intervals : list regimen)
    (fu_mean fu_std vd_mean vd_std clt_mean clt_std : R)
    (mics : list R) (num_patients : Z) (target : R)
    (e : exn) (s s' : rng) :
  monte_carlo_simulation rng lognormal dose_intervals
    fu_mean fu_std vd_mean vd_std clt_mean clt_std mics num_patients target s
  = (Raise e, s') ->
  (e = TypeError \/ e = ZeroDivisionError \/ e = ValueError)
  /\ (fu_mean <> 0 -> vd_mean <> 0 -> clt_mean <> 0 ->
      num_patients <> 0%Z -> e = TypeError).
Proof.
  intros E.
  destruct (Req_dec_T fu_mean 0) as [Hfu | Hfu];
    [| destruct (Req_dec_T vd_mean 0) as [Hvd | Hvd];
       [| destruct (Req_dec_T clt_mean 0) as [Hclt | Hclt]]].
  1-3: destruct (monte_carlo_simulation_zero_mean rng lognormal dose_intervals
                   fu_mean fu_std vd_mean vd_std clt_mean clt_std mics
                   num_patients target s) as (e' & He' & E'); [tauto |];
       rewrite E' in E; injection E as <- _;
       (split; [tauto | intros; contradiction]).
  erewrite monte_carlo_simulation_converted in E
    by (apply calculate_lognormal_params_nonzero; assumption).
  apply mics_loop_raises in E.
  split; [tauto |]. intros _ _ _ Hn. destruct E as [-> | [_ Hz]]; [reflexivity |].
  contradiction.
Qed.

(** A run that fails: dose 0 on the tape generator. *)
Lemma tape_run_domain_error :
  monte_carlo_simulation (list R) tape_lognormal [(0, 24)] 1 0 1 0 1 0
    [1] 5000 55 [] = (Raise TypeError, []).
Proof.
  eapply monte_carlo_simulation_first_patient_raises.
  - apply calculate_lognormal_params_nonzero; lra.
  - apply calculate_lognormal_params_nonzero; lra.
  - apply calculate_lognormal_params_nonzero; lra.
  - lia.
  - reflexivity.
  - apply meets_target_domain_error. left.
    unfold Rdiv. rewrite !Rmult_0_l. lra.
Qed.

Lemma monte_carlo_simulation_failures_witness :
  (TypeError = TypeError \/ TypeError = ZeroDivisionError \/ TypeError = ValueError)
  /\ (1 <> 0 -> 1 <> 0 -> 1 <> 0 -> 5000%Z <> 0%Z -> TypeError = TypeError).
Proof.
  exact (monte_carlo_simulation_failures (list R) tape_lognormal [(0, 24)]
           1 0 1 0 1 0 [1] 5000 55 TypeError [] []
           tape_run_domain_error).
Defined.

(** X12.  On valid inputs the run completes: when the generator only produces
    positive values, the means are nonzero, the patient count is nonzero,
    every dose and threshold is positive and every interval nonzero, no draw
    is a domain error and the simulation returns its results. *)
Theorem monte_carlo_simulation_completes
    (rng : Type) (lognormal : R -> R -> rng -> R * rng)
    (dose_intervals : list regimen)
    (fu_mean fu_std vd_mean vd_std clt_mean clt_std : R)
    (mics : list R) (num_patients : Z) (target : R) (s : rng) :
  (forall mu sigma s0, 0 < fst (lognormal mu sigma s0)) ->
  fu_mean <> 0 -> vd_mean <> 0 -> clt_mean <> 0 ->
  num_patients <> 0%Z ->
  Forall (fun r : regimen => 0 < fst r /\ snd r <> 0) dose_intervals ->
  Forall (fun mic => 0 < mic) mics ->
  exists results s',
    monte_carlo_simulation rng lognormal dose_intervals
      fu_mean fu_std vd_mean vd_std clt_mean clt_std mics num_patients target s
    = (Ok results, s').
Proof.
  intros Hpos Hfu Hvd Hclt Hn Hregs Hmics.
  erewrite monte_carlo_simulation_converted
    by (apply calculate_lognormal_params_nonzero; assumption).
  apply mics_loop_completes; [assumption |].
  intros mic r s0 Hmic Hr.
  rewrite Forall_forall in Hregs, Hmics.
  destruct (Hregs r Hr) as [Hdose Hdi].
  apply patients_loop_completes; auto.
Qed.

Lemma monte_carlo_simulation_completes_witness :
  exists results s',
    monte_carlo_simulation (list R) tape_lognormal [(2000, 24); (1000, 12)]
      (73 / 1000) (32 / 1000) (78 / 10) (54 / 10) (83 / 100) (83 / 100)
      [1; 2; 4] 5000 55 [1; -1; 2] = (Ok results, s').
Proof.
  apply (monte_carlo_simulation_completes (list R) tape_lognormal).
  - apply tape_lognormal_pos.
  - lra.
  - lra.
  - lra.
  - lia.
  - repeat constructor; cbn; lra.
  - repeat constructor; lra.
Defined.

(** X13.  A target that is not positive is met by every patient that evaluates:
    in a completed run with a positive patient count every percentage is
    100. *)
Theorem monte_carlo_simulation_nonpositive_target
    (rng : Type) (lognormal : R -> R -> rng -> R * rng)
    (dose_intervals : list regimen)
    (fu_mean fu_std vd_mean vd_std clt_mean clt_std : R)
    (mics : list R) (num_patients : Z) (target : R)
    (results : list (R * list row)) (s s' : rng) :
  target <= 0 -> (0 < num_patients)%Z ->
  monte_carlo_simulation rng lognormal dose_intervals
    fu_mean fu_std vd_mean vd_std clt_mean clt_std mics num_patients target s
  = (Ok results, s') ->
  Forall (fun kv => Forall (fun r => pta_of r = 100) (snd kv)) results.
Proof.
  intros Ht Hn E. apply monte_carlo_simulation_inv in E.
  destruct E as (fu & vd & clt & _ & _ & _ & E).
  eapply mics_loop_rows in E; [exact E | | constructor].
  intros mic dose di c s0 s1 Ep _. cbn [pta_of].
  apply (patients_loop_all_hit _ _ _ _ _ _ _ _ _ _ _ _ _ Ht) in Ep.
  subst c. cbn [Nat.add].
  rewrite INR_IZR_INZ, Z2Nat.id by lia.
  field. apply not_0_IZR. lia.
Qed.

Lemma monte_carlo_simulation_nonpositive_target_witness :
  Forall (fun kv : R * list row => Forall (fun r => pta_of r = 100) (snd kv))
    [(1, [(2000, 24, 100)])].
Proof.
  refine (monte_carlo_simulation_nonpositive_target (list R) tape_lognormal
            [(2000, 24)] 1 0 1 0 1 0 [1] 1 0 [(1, [(2000, 24, 100)])] [] []
            _ _ tape_run_example).
  - lra.
  - lia.
Defined.

Lemma mics_loop_no_regimens
    (rng : Type) (lognormal : R -> R -> rng -> R * rng)
    (fu_mu fu_sigma vd_mu vd_sigma clt_mu clt_sigma : R)
    (num_patients : Z) (target : R) (mics : list R) :
  forall (results : list (R * list row)) (s : rng),
  exists results',
    mics_loop rng lognormal fu_mu fu_sigma vd_mu vd_sigma clt_mu clt_sigma
      [] num_patients target mics results s = (Ok results', s).
Proof.
  induction mics as [| mic t IH]; intros results s.
  - cbn. unfold ret. eauto.
  - rewrite mics_loop_cons. cbn [regimens_loop]. unfold ret. apply IH.
Qed.

(** X14.  Empty inputs.  Without thresholds the result is the empty dictionary;
    without regimens every threshold gets an empty list.  Neither case draws
    a random number or divides by the patient count, so both succeed for any
    patient count, zero included. *)
Theorem monte_carlo_simulation_empty_inputs
    (rng : Type) (lognormal : R -> R -> rng -> R * rng)
    (dose_intervals : list regimen)
    (fu_mean fu_std vd_mean vd_std clt_mean clt_std : R)
    (mics : list R) (num_patients : Z) (target : R) (s : rng) :
  fu_mean <> 0 -> vd_mean <> 0 -> clt_mean <> 0 ->
  monte_carlo_simulation rng lognormal dose_intervals
    fu_mean fu_std vd_mean vd_std clt_mean clt_std [] num_patients target s
  = (Ok [], s)
  /\ exists results,
       monte_carlo_simulation rng lognormal []
         fu_mean fu_std vd_mean vd_std clt_mean clt_std mics num_patients target s
       = (Ok results, s)
       /\ dict_keys results = rev (nodup Req_dec_T (rev mics))
       /\ Forall (fun kv => snd kv = []) results.
Proof.
  intros Hfu Hvd Hclt. split.
  - erewrite monte_carlo_simulation_converted
      by (apply calculate_lognormal_params_nonzero; assumption).
    reflexivity.
  - erewrite monte_carlo_simulation_converted
      by (apply calculate_lognormal_params_nonzero; assumption).
    cbn [fst snd].
    match goal with
    | |- exists results, mics_loop _ _ ?a ?b ?c ?d ?e ?f _ _ _ _ _ _ = _ /\ _ =>
        destruct (mics_loop_no_regimens rng lognormal a b c d e f
                    num_patients target mics [] s) as (results & E)
    end.
    exists results. split; [exact E |].
    apply mics_loop_ok in E; [| constructor | constructor].
    destruct E as [Hkeys Hrows]. split; [exact Hkeys |].
    eapply Forall_impl; [| exact Hrows].
    intros kv [Hmap _]. apply map_eq_nil in Hmap. exact Hmap.
Qed.

Lemma monte_carlo_simulation_empty_inputs_witness :
  monte_carlo_simulation (list R) tape_lognormal [(2000, 24)]
    1 0 1 0 1 0 [] 0 55 [1; 2] = (Ok [], [1; 2])
  /\ exists results,
       monte_carlo_simulation (list R) tape_lognormal []
         1 0 1 0 1 0 [4; 8] 0 55 [1; 2] = (Ok results, [1; 2])
       /\ dict_keys results = rev (nodup Req_dec_T (rev [4; 8]))
       /\ Forall (fun kv => snd kv = []) results.
Proof.
  apply (monte_carlo_simulation_empty_inputs (list R) tape_lognormal
           [(2000, 24)] 1 0 1 0 1 0 [4; 8] 0 55 [1; 2]); lra.
Defined.

(** X15.  A patient count of zero is not rejected: with at least one threshold and
    one regimen the run raises ZeroDivisionError when it computes the first
    percentage, having drawn nothing. *)
Theorem monte_carlo_simulation_zero_patients
    (rng : Type) (lognormal : R -> R -> rng -> R * rng)
    (regimen0 : regimen) (dose_intervals : list regimen)
    (fu_mean fu_std vd_mean vd_std clt_mean clt_std : R)
    (mic : R) (mics : list R) (target : R) (s : rng) :
  fu_mean <> 0 -> vd_mean <> 0 -> clt_mean <> 0 ->
  monte_carlo_simulation rng lognormal (regimen0 :: dose_intervals)
    fu_mean fu_std vd_mean vd_std clt_mean clt_std (mic :: mics) 0 target s
  = (Raise ZeroDivisionError, s).
Proof.
  intros Hfu Hvd Hclt.
  erewrite monte_carlo_simulation_converted
    by (apply calculate_lognormal_params_nonzero; assumption).
  destruct regimen0 as [dose di].
  rewrite mics_loop_cons, regimens_loop_cons, regimen_body_run.
  change (Z.to_nat 0) with 0%nat. cbn [patients_loop]. unfold ret.
  destruct (Req_dec_T 0 0); [reflexivity | contradiction].
Qed.

Lemma monte_carlo_simulation_zero_patients_witness :
  monte_carlo_simulation (list R) tape_lognormal [(2000, 24)]
    1 0 1 0 1 0 [1] 0 55 [1; 2] = (Raise ZeroDivisionError, [1; 2]).
Proof.
  apply (monte_carlo_simulation_zero_patients (list R) tape_lognormal
           (2000, 24) [] 1 0 1 0 1 0 1 [] 55 [1; 2]); lra.
Defined.

(** X16.  A negative patient count is not rejected either: the run draws nothing,
    completes, and reports 0 for every pair. *)
Theorem monte_carlo_simulation_negative_patients
    (rng : Type) (lognormal : R -> R -> rng -> R * rng)
    (dose_intervals : list regimen)
    (fu_mean fu_std vd_mean vd_std clt_mean clt_std : R)
    (mics : list R) (num_patients : Z) (target : R) (s : rng) :
  fu_mean <> 0 -> vd_mean <> 0 -> clt_mean <> 0 ->
  (num_patients < 0)%Z ->
  exists results,
    monte_carlo_simulation rng lognormal dose_intervals
      fu_mean fu_std vd_mean vd_std clt_mean clt_std mics num_patients target s
    = (Ok results, s)
    /\ Forall (fun kv => Forall (fun r => pta_of r = 0) (snd kv)) results.
Proof.
  intros Hfu Hvd Hclt Hn.
  assert (Hnat : Z.to_nat num_patients = 0%nat) by lia.
  erewrite monte_carlo_simulation_converted
    by (apply calculate_lognormal_params_nonzero; assumption).
  cbn [fst snd].
  match goal with
  | |- exists results, ?run = _ /\ _ =>
      assert (Hrun : exists results s', run = (Ok results, s'))
  end.
  { apply mics_loop_completes; [lia |].
    intros mic r s0 _ _. rewrite Hnat. cbn. unfold ret. eauto. }
  destruct Hrun as (results & s' & E). exists results.
  pose proof (mics_loop_state _ _ _ _ _ _ _ _ _ _ _ _ _ _ _ _ E) as Hs.
  rewrite Hnat, Nat.mul_0_r, Nat.mul_0_r in Hs. cbn in Hs. subst s'.
  split; [exact E |].
  eapply mics_loop_rows in E; [exact E | | constructor].
  intros mic dose di c s0 s1 Ep _. cbn [pta_of].
  rewrite Hnat in Ep. cbn in Ep. unfold ret in Ep. injection Ep as <- _.
  cbn. unfold Rdiv. ring.
Qed.

Lemma monte_carlo_simulation_negative_patients_witness :
  exists results,
    monte_carlo_simulation (list R) tape_lognormal [(2000, 24)]
      1 0 1 0 1 0 [1] (-5) 55 [1; 2] = (Ok results, [1; 2])
    /\ Forall (fun kv => Forall (fun r => pta_of r = 0) (snd kv)) results.
Proof.
  apply (monte_carlo_simulation_negative_patients (list R) tape_lognormal
           [(2000, 24)] 1 0 1 0 1 0 [1] (-5) 55 [1; 2]); try lra. lia.
Defined.

(** ** Order of first occurrence *)

Section FirstOccurrences.

Context {A : Type}.
Variable dec : forall x y : A, {x = y} + {x <> y}.

Local Abbreviation firsts l := (rev (nodup dec (rev l))).

Lemma firsts_In (x : A) (l : list A) : In x (firsts l) <-> In x l.
Proof. rewrite <- in_rev, nodup_In, <- in_rev. tauto. Qed.

Lemma firsts_NoDup (l : list A) : NoDup (firsts l).
Proof. apply NoDup_rev, NoDup_nodup. Qed.

Lemma firsts_fixed (l : list A) : NoDup l -> firsts l = l.
Proof.
  intros H. rewrite nodup_fixed_point by (apply NoDup_rev; assumption).
  apply rev_involutive.
Qed.

Lemma firsts_snoc_old (x : A) (l : list A) :
  In x l -> firsts (l ++ [x]) = firsts l.
Proof.
  intros Hin. rewrite rev_app_distr. cbn [rev app nodup].
  destruct (in_dec dec x (rev l)) as [_ | Hn]; [reflexivity |].
  exfalso. apply Hn. rewrite <- in_rev. assumption.
Qed.

Lemma firsts_snoc_new (x : A) (l : list A) :
  ~ In x l -> firsts (l ++ [x]) = firsts l ++ [x].
Proof.
  intros Hout. rewrite rev_app_distr. cbn [rev app nodup].
  destruct (in_dec dec x (rev l)) as [Hin | _]; [| reflexivity].
  exfalso. apply Hout. rewrite in_rev. assumption.
Qed.

(** Keys of a dictionary that follows the first occurrences of a list keep
    doing so when the next element is assigned. *)
Lemma dict_keys_set_firsts {V : Type} (k : A) (v : V) (d : list (A * V))
      (l : list A) :
  dict_keys d = firsts l ->
  dict_keys (dict_set dec k v d) = firsts (l ++ [k]).
Proof.
  intros Hk. destruct (in_dec dec k l) as [Hin | Hout].
  - rewrite firsts_snoc_old by assumption.
    rewrite dict_keys_set_present; [assumption |].
    rewrite Hk. apply firsts_In. assumption.
  - rewrite firsts_snoc_new by assumption.
    rewrite dict_keys_set_fresh; [rewrite Hk; reflexivity |].
    rewrite Hk, firsts_In. assumption.
Qed.

End FirstOccurrences.

(** ** More about the aggregator *)

Lemma cfr_rows_keys (mic_distribution : list (R * R)) (mic : R)
      (rows : list row) :
  forall (cfr cfr' : list (regimen * R)) (l : list regimen),
    rfold (cfr_row mic_distribution mic) rows cfr = Ok cfr' ->
    dict_keys cfr = rev (nodup regimen_eq_dec (rev l)) ->
    dict_keys cfr'
    = rev (nodup regimen_eq_dec (rev (l ++ map regimen_of rows))).
Proof.
  induction rows as [| r t IH]; intros cfr cfr' l.
  - cbn. intros E Hk. injection E as <-. rewrite app_nil_r. exact Hk.
  - cbn [rfold map]. rewrite cfr_row_ok. cbn [rbind]. intros E Hk.
    eapply IH in E; [| apply dict_keys_set_firsts; exact Hk].
    rewrite E, <- app_assoc. reflexivity.
Qed.

Lemma cfr_results_keys (mic_distribution : list (R * R))
      (results : list (R * list row)) :
  forall (cfr cfr' : list (regimen * R)) (l : list regimen),
    rfold (fun cfr_results '(mic, combinations) =>
             rfold (cfr_row mic_distribution mic) combinations cfr_results)
          results cfr = Ok cfr' ->
    dict_keys cfr = rev (nodup regimen_eq_dec (rev l)) ->
    dict_keys cfr'
    = rev (nodup regimen_eq_dec (rev (l ++ all_regimens results))).
Proof.
  induction results as [| [mic rows] t IH]; intros cfr cfr' l.
  - cbn. intros E Hk. injection E as <-. rewrite app_nil_r. exact Hk.
  - cbn [rfold].
    destruct (rfold (cfr_row mic_distribution mic) rows cfr) as [cfr1 | e] eqn:E1;
      [| discriminate].
    cbn [rbind]. intros E Hk.
    eapply IH in E; [| eapply cfr_rows_keys; eassumption].
    rewrite E, all_regimens_cons, <- app_assoc. reflexivity.
Qed.

(** X17.  The aggregator never raises.  Its result has one entry per regimen of
    the results, in the order in which the regimens first occur there, and
    the entry adds pta * weight for every row of that regimen, also when a
    threshold lists the regimen more than once. *)
Theorem calculate_cfr_total
    (results : list (R * list row)) (mic_distribution : list (R * R)) :
  exists cfr_results,
    calculate_cfr results mic_distribution = Ok cfr_results
    /\ dict_keys cfr_results
       = rev (nodup regimen_eq_dec (rev (all_regimens results)))
    /\ forall reg,
         In reg (all_regimens results) ->
         dict_get regimen_eq_dec reg cfr_results
         = Some (results_sum mic_distribution reg results).
Proof.
  unfold calculate_cfr.
  destruct (cfr_results_ok mic_distribution results []) as (cfr & E & Hget).
  exists cfr. split; [exact E |]. split.
  - apply (cfr_results_keys mic_distribution results [] cfr [] E). reflexivity.
  - intros reg Hin. rewrite (proj1 (Hget reg) Hin).
    unfold dict_get_default. cbn [dict_get]. f_equal. ring.
Qed.

Lemma attainment_range (reg : regimen) (rows : list row) (pta : R) :
  Forall row_in_range rows -> attainment reg rows = Some pta -> 0 <= pta <= 100.
Proof.
  induction 1 as [| r t Hr Ht IH]; cbn [attainment]; [discriminate |].
  destruct (regimen_eq_dec (regimen_of r) reg).
  - intros E. injection E as <-. exact Hr.
  - exact IH.
Qed.






Lemma rfold_ext {A B : Type} (f g : B -> A -> result B) (l : list A) :
  (forall acc x, In x l -> f acc x = g acc x) ->
  forall acc, rfold f l acc = rfold g l acc.
Proof.
  induction l as [| x t IH]; intros H acc; [reflexivity |].
  cbn [rfold]. rewrite (H acc x (or_introl eq_refl)).
  destruct (g acc x) as [acc' | e]; [| reflexivity].
  cbn [rbind]. apply IH. intros a y Hy. apply H. right. exact Hy.
Qed.

(** X19.  Only the weights of the thresholds of the results are read: entries of
    the susceptibility distribution for other thresholds change nothing. *)
Theorem calculate_cfr_ignores_other_thresholds
    (results : list (R * list row)) (d1 d2 : list (R * R)) :
  (forall mic, In mic (dict_keys results) -> weight d1 mic = weight d2 mic) ->
  calculate_cfr results d1 = calculate_cfr results d2.
Proof.
  intros Hw. unfold calculate_cfr. apply rfold_ext.
  intros acc [mic rows] Hin. apply rfold_ext.
  intros acc' r _. rewrite !cfr_row_ok.
  rewrite (Hw mic); [reflexivity |].
  unfold dict_keys. apply (in_map fst) in Hin. exact Hin.
Qed.

Lemma calculate_cfr_ignores_other_thresholds_witness :
  calculate_cfr [(1, [(2000, 24, 80)])] [(1, 1 / 2)]
  = calculate_cfr [(1, [(2000, 24, 80)])] [(1, 1 / 2); (64, 1 / 2)].
Proof.
  apply (calculate_cfr_ignores_other_thresholds
           [(1, [(2000, 24, 80)])] [(1, 1 / 2)] [(1, 1 / 2); (64, 1 / 2)]).
  unfold dict_keys. cbn [map fst].
  intros mic [<- | []]. unfold weight, dict_get_default. cbn [dict_get].
  destruct (Req_dec_T 1 1); [reflexivity | contradiction].
Defined.

(** ** The caller *)

Lemma add_regimen_firsts (x : regimen) (l clicks : list regimen) :
  l = rev (nodup regimen_eq_dec (rev clicks)) ->
  add_regimen x l = rev (nodup regimen_eq_dec (rev (clicks ++ [x]))).
Proof.
  intros Hl. unfold add_regimen.
  destruct (in_dec regimen_eq_dec x l) as [Hin | Hout].
  - rewrite firsts_snoc_old; [exact Hl |].
    rewrite Hl in Hin. apply firsts_In in Hin. exact Hin.
  - rewrite firsts_snoc_new; [rewrite Hl; reflexivity |].
    intros Hin. apply Hout. rewrite Hl. apply firsts_In. exact Hin.
Qed.

Lemma add_regimen_fold (clicks : list regimen) :
  forall (l seen : list regimen),
    l = rev (nodup regimen_eq_dec (rev seen)) ->
    fold_left (fun acc x => add_regimen x acc) clicks l
    = rev (nodup regimen_eq_dec (rev (seen ++ clicks))).
Proof.
  induction clicks as [| x t IH]; intros l seen Hl.
  - cbn. rewrite app_nil_r. exact Hl.
  - cbn [fold_left]. rewrite (IH _ (seen ++ [x]) (add_regimen_firsts x l seen Hl)).
    rewrite <- app_assoc. reflexivity.
Qed.

(** X20.  The regimen list of a session, built from the empty list by the "Add
    Regimen" button, holds each regimen once, in the order of its first
    click; clicking a regimen that is already listed changes nothing. *)
Theorem add_regimen_session (clicks : list regimen) (x : regimen) :
  let session := fold_left (fun acc r => add_regimen r acc) clicks [] in
  session = rev (nodup regimen_eq_dec (rev clicks))
  /\ NoDup session
  /\ (forall r, In r session <-> In r clicks)
  /\ (In x session -> add_regimen x session = session).
Proof.
  cbn zeta.
  rewrite (add_regimen_fold clicks [] [] eq_refl). cbn [app].
  split; [reflexivity |]. split; [apply firsts_NoDup |].
  split; [intros r; apply firsts_In |].
  intros Hin. unfold add_regimen.
  destruct (in_dec regimen_eq_dec x _); [reflexivity | contradiction].
Qed.

Lemma dict_get_present {K V : Type} (dec : forall x y : K, {x = y} + {x <> y})
      (k : K) (d : list (K * V)) :
  In k (dict_keys d) -> exists v, dict_get dec k d = Some v /\ In (k, v) d.
Proof.
  intros Hin. destruct (dict_get dec k d) as [v |] eqn:E.
  - exists v. split; [reflexivity | apply (dict_get_In dec), E].
  - exfalso. apply (dict_get_None dec) in E. contradiction.
Qed.

Lemma attainment_present (reg : regimen) (rows : list row) :
  In reg (map regimen_of rows) -> exists pta, attainment reg rows = Some pta.
Proof.
  induction rows as [| r t IH]; cbn [map In attainment]; [tauto |].
  destruct (regimen_eq_dec (regimen_of r) reg); [eauto |].
  intros [E | Hin]; [contradiction | apply IH, Hin].
Qed.

(** X21.  The table and CSV cells of a completed run: for every input threshold
    and every regimen of the run the lookup finds a percentage in [0, 100]
    (the fallbacks None and 0 are never used); a threshold that was not
    simulated makes the lookup raise KeyError. *)
Theorem pta_val_of_run
    (rng : Type) (lognormal : R -> R -> rng -> R * rng)
    (dose_intervals : list regimen)
    (fu_mean fu_std vd_mean vd_std clt_mean clt_std : R)
    (mics : list R) (num_patients : Z) (target : R)
    (results : list (R * list row)) (s s' : rng) :
  monte_carlo_simulation rng lognormal dose_intervals
    fu_mean fu_std vd_mean vd_std clt_mean clt_std mics num_patients target s
  = (Ok results, s') ->
  (forall mic reg,
      In mic mics -> In reg dose_intervals ->
      exists pta, pta_val results mic reg = Ok (Some pta) /\ 0 <= pta <= 100)
  /\ (forall mic reg, ~ In mic mics -> pta_val results mic reg = Raise KeyError).
Proof.
  intros E. apply monte_carlo_simulation_inv in E.
  destruct E as (fu & vd & clt & _ & _ & _ & E).
  apply mics_loop_ok in E; [| constructor | constructor].
  destruct E as [Hkeys Hrows]. cbn [dict_keys map app] in Hkeys.
  split.
  - intros mic reg Hmic Hreg.
    assert (Hin : In mic (dict_keys results)).
    { rewrite Hkeys. apply firsts_In. exact Hmic. }
    destruct (dict_get_present Req_dec_T mic results Hin) as (rows & Hget & Hkv).
    rewrite Forall_forall in Hrows. destruct (Hrows _ Hkv) as [Hmap Hrange].
    cbn [snd] in Hmap, Hrange.
    destruct (attainment_present reg rows) as (pta & Ha).
    { rewrite Hmap. exact Hreg. }
    exists pta. split.
    + unfold pta_val, dict_item. rewrite Hget. cbn [rbind]. rewrite Ha.
      reflexivity.
    + apply (attainment_range reg rows pta Hrange Ha).
  - intros mic reg Hout. unfold pta_val, dict_item.
    assert (Hnone : dict_get Req_dec_T mic results = None).
    { apply dict_get_None. rewrite Hkeys, firsts_In. exact Hout. }
    rewrite Hnone. reflexivity.
Qed.

Lemma pta_val_of_run_witness :
  (forall mic reg,
      In mic [1] -> In reg [(2000, 24)] ->
      exists pta,
        pta_val [(1, [(2000, 24, 100)])] mic reg = Ok (Some pta)
        /\ 0 <= pta <= 100)
  /\ (forall mic reg,
         ~ In mic [1] -> pta_val [(1, [(2000, 24, 100)])] mic reg = Raise KeyError).
Proof.
  exact (pta_val_of_run (list R) tape_lognormal
           [(2000, 24)] 1 0 1 0 1 0 [1] 1 0 [(1, [(2000, 24, 100)])] [] []
           tape_run_example).
Defined.

Lemma firsts_app_incl {A : Type} (dec : forall x y : A, {x = y} + {x <> y})
      (l l' : list A) :
  incl l' l ->
  rev (nodup dec (rev (l ++ l'))) = rev (nodup dec (rev l)).
Proof.
  induction l' as [| x t IH] using rev_ind; intros Hincl.
  - rewrite app_nil_r. reflexivity.
  - rewrite app_assoc, firsts_snoc_old.
    + apply IH. intros y Hy. apply Hincl. apply in_or_app. left. exact Hy.
    + apply in_or_app. left. apply Hincl. apply in_or_app. right. left.
      reflexivity.
Qed.

Lemma all_regimens_incl (dose_intervals : list regimen)
      (results : list (R * list row)) :
  Forall (rows_ok dose_intervals) results ->
  incl (all_regimens results) dose_intervals.
Proof.
  induction 1 as [| kv t Hkv Ht IH].
  - intros x [].
  - destruct Hkv as [Hmap _]. rewrite all_regimens_cons, Hmap.
    intros x Hx. apply in_app_or in Hx. destruct Hx; auto.
Qed.

(** The regimens of a completed run with at least one threshold, in the
    order of their first occurrence, are the input regimens. *)
Lemma all_regimens_of_run (dose_intervals : list regimen)
      (results : list (R * list row)) :
  Forall (rows_ok dose_intervals) results ->
  NoDup dose_intervals ->
  results <> [] ->
  rev (nodup regimen_eq_dec (rev (all_regimens results))) = dose_intervals
  /\ (forall reg, In reg dose_intervals -> In reg (all_regimens results))
  /\ Forall (fun kv => NoDup (map regimen_of (snd kv))) results.
Proof.
  intros Hok Hnd Hne. split; [| split].
  - destruct results as [| kv t]; [contradiction |].
    inversion Hok as [| ? ? Hkv Ht]; subst. destruct Hkv as [Hmap _].
    rewrite all_regimens_cons, Hmap.
    rewrite firsts_app_incl by (apply all_regimens_incl; assumption).
    apply firsts_fixed. exact Hnd.
  - destruct results as [| kv t]; [contradiction |].
    inversion Hok as [| ? ? Hkv Ht]; subst. destruct Hkv as [Hmap _].
    intros reg Hreg. rewrite all_regimens_cons, Hmap.
    apply in_or_app. left. exact Hreg.
  - eapply Forall_impl; [| exact Hok].
    intros kv [Hmap _]. rewrite Hmap. exact Hnd.
Qed.

(** X22.  The "Run Simulation" button on a completed simulation: the aggregation
    cannot fail; with distinct regimens and at least one threshold its
    result has exactly the input regimens as keys, in input order, each
    with the weighted sum of its percentages over the thresholds. *)
Theorem run_simulation_ok
    (rng : Type) (lognormal : R -> R -> rng -> R * rng)
    (dose_intervals : list regimen)
    (fu_mean fu_std vd_mean vd_std clt_mean clt_std : R)
    (mics : list R) (num_patients : Z) (target : R)
    (mic_distribution : list (R * R))
    (results : list (R * list row)) (s s' : rng) :
  monte_carlo_simulation rng lognormal dose_intervals
    fu_mean fu_std vd_mean vd_std clt_mean clt_std mics num_patients target s
  = (Ok results, s') ->
  NoDup dose_intervals ->
  mics <> [] ->
  exists cfr_results,
    run_simulation rng lognormal dose_intervals
      fu_mean fu_std vd_mean vd_std clt_mean clt_std mics num_patients target
      mic_distribution s
    = (Ok (results, cfr_results), s')
    /\ dict_keys cfr_results = dose_intervals
    /\ forall reg,
         In reg dose_intervals ->
         dict_get regimen_eq_dec reg cfr_results
         = Some (score results mic_distribution reg).
Proof.
  intros E Hnd Hmics.
  unfold run_simulation. unfold bind at 1. rewrite E.
  apply monte_carlo_simulation_inv in E.
  destruct E as (fu & vd & clt & _ & _ & _ & E).
  apply mics_loop_ok in E; [| constructor | constructor].
  destruct E as [Hkeys Hrows]. cbn [dict_keys map app] in Hkeys.
  assert (Hne : results <> []).
  { intros ->. destruct mics as [| m t]; [contradiction |].
    assert (Hin : In m (dict_keys (@nil (R * list row)))).
    { rewrite Hkeys. apply firsts_In. left. reflexivity. }
    destruct Hin. }
  destruct (all_regimens_of_run dose_intervals results Hrows Hnd Hne)
    as (Hfirsts & Hall & Hdist).
  unfold calculate_cfr.
  destruct (cfr_results_ok mic_distribution results []) as (cfr & Ec & Hget).
  exists cfr. unfold bind, lift, ret, calculate_cfr. rewrite Ec.
  split; [reflexivity |]. split.
  - rewrite (cfr_results_keys mic_distribution results [] cfr [] Ec eq_refl).
    exact Hfirsts.
  - intros reg Hreg. rewrite (proj1 (Hget reg) (Hall reg Hreg)).
    rewrite results_sum_score by assumption.
    unfold dict_get_default. cbn [dict_get]. f_equal. ring.
Qed.

Lemma run_simulation_ok_witness :
  exists cfr_results,
    run_simulation (list R) tape_lognormal [(2000, 24)] 1 0 1 0 1 0 [1] 1 0
      [(1, 1 / 2)] []
    = (Ok ([(1, [(2000, 24, 100)])], cfr_results), [])
    /\ dict_keys cfr_results = [(2000, 24)]
    /\ forall reg,
         In reg [(2000, 24)] ->
         dict_get regimen_eq_dec reg cfr_results
         = Some (score [(1, [(2000, 24, 100)])] [(1, 1 / 2)] reg).
Proof.
  apply (run_simulation_ok (list R) tape_lognormal [(2000, 24)]
           1 0 1 0 1 0 [1] 1 0 [(1, 1 / 2)] [(1, [(2000, 24, 100)])] [] []
           tape_run_example).
  - constructor; [intros [] | constructor].
  - discriminate.
Defined.





(** ** The text inputs *)

Lemma py_split_nonempty (sep : Ascii.ascii) (s : string) : py_split sep s <> [].
Proof.
  destruct s as [| c rest]; cbn; [discriminate |].
  destruct (Ascii.ascii_dec c sep); [discriminate |].
  destruct (py_split sep rest); discriminate.
Qed.

(** Splitting distributes over a separator. *)
Lemma py_split_app (sep : Ascii.ascii) (a b : string) :
  py_split sep (String.append a (String sep b))
  = py_split sep a ++ py_split sep b.
Proof.
  induction a as [| c rest IH]; cbn [String.append py_split].
  - destruct (Ascii.ascii_dec sep sep); [reflexivity | contradiction].
  - rewrite IH. destruct (Ascii.ascii_dec c sep); [reflexivity |].
    pose proof (py_split_nonempty sep rest) as Hne.
    destruct (py_split sep rest); [contradiction | reflexivity].
Qed.

Lemma py_split_no_sep (sep : Ascii.ascii) (p : string) :
  ~ In sep (list_ascii_of_string p) -> py_split sep p = [p].
Proof.
  induction p as [| c rest IH]; cbn [list_ascii_of_string py_split In];
    [reflexivity |].
  intros Hnot. destruct (Ascii.ascii_dec c sep) as [E | N].
  - exfalso. apply Hnot. left. exact E.
  - rewrite IH by tauto. reflexivity.
Qed.

Lemma rmap_app {A B : Type} (f : A -> result B) (l1 l2 : list A) :
  rmap f (l1 ++ l2)
  = (ys1 <- rmap f l1 ;; ys2 <- rmap f l2 ;; Ok (ys1 ++ ys2))%py.
Proof.
  induction l1 as [| x t IH]; cbn [app rmap rbind].
  - destruct (rmap f l2); reflexivity.
  - destruct (f x) as [y | e]; [| reflexivity]. cbn [rbind]. rewrite IH.
    destruct (rmap f t) as [ys1 | e]; [| reflexivity]. cbn [rbind].
    destruct (rmap f l2); reflexivity.
Qed.

Lemma rfold_app {A B : Type} (f : B -> A -> result B) (l1 l2 : list A) :
  forall acc, rfold f (l1 ++ l2) acc = (acc' <- rfold f l1 acc ;; rfold f l2 acc')%py.
Proof.
  induction l1 as [| x t IH]; intros acc; cbn [app rfold rbind]; [reflexivity |].
  destruct (f acc x) as [acc1 | e]; [| reflexivity]. cbn [rbind]. apply IH.
Qed.

(** X24.  The threshold list parses piece by piece: two texts joined by a comma
    give the concatenation of their lists, and fail when either fails. *)
Theorem parse_mic_list_comma (float_strip : string -> result R) (a b : string) :
  parse_mic_list float_strip (String.append a (String ","%char b))
  = (l1 <- parse_mic_list float_strip a ;;
     l2 <- parse_mic_list float_strip b ;;
     Ok (l1 ++ l2))%py.
Proof.
  unfold parse_mic_list. rewrite py_split_app. apply rmap_app.
Qed.

(** X25.  A distribution text that is empty or ends with a comma is rejected: its
    last piece has no colon, so unpacking [pair.split(":")] fails (if nothing
    failed before). *)
Theorem parse_mic_distribution_trailing_comma
    (float_strip : string -> result R) (a : string) :
  parse_mic_distribution float_strip EmptyString = Raise ValueError
  /\ exists e,
       parse_mic_distribution float_strip (String.append a (String ","%char EmptyString))
       = Raise e.
Proof.
  split; [reflexivity |].
  unfold parse_mic_distribution. rewrite py_split_app, rfold_app.
  destruct (rfold (parse_pair float_strip) (py_split ","%char a) [])
    as [d | e]; cbn; eauto.
Qed.

(** X26.  A later entry of the distribution text replaces an earlier one for the
    same threshold: appending ",key:value" to a text that parses assigns
    [value] to [key] and leaves the other thresholds as they were. *)
Theorem parse_mic_distribution_append
    (float_strip : string -> result R) (a pair mic_key fraction : string)
    (d : list (R * R)) (key value : R) :
  parse_mic_distribution float_strip a = Ok d ->
  ~ In ","%char (list_ascii_of_string pair) ->
  py_split ":"%char pair = [mic_key; fraction] ->
  float_strip mic_key = Ok key ->
  float_strip fraction = Ok value ->
  parse_mic_distribution float_strip (String.append a (String ","%char pair))
  = Ok (dict_set Req_dec_T key value d)
  /\ weight (dict_set Req_dec_T key value d) key = value
  /\ (forall mic, mic <> key ->
        weight (dict_set Req_dec_T key value d) mic = weight d mic).
Proof.
  intros Ea Hcomma Hsplit Hk Hv. split; [| split].
  - unfold parse_mic_distribution in *.
    rewrite py_split_app, rfold_app, Ea. cbn [rbind].
    rewrite (py_split_no_sep _ _ Hcomma). cbn [rfold].
    unfold parse_pair. rewrite Hsplit, Hv. cbn [rbind]. rewrite Hk. reflexivity.
  - unfold weight, dict_get_default. rewrite dict_get_set_same. reflexivity.
  - intros mic Hne. unfold weight, dict_get_default.
    rewrite dict_get_set_other by (intros E; apply Hne; symmetry; exact E).
    reflexivity.
Qed.

Lemma parse_mic_distribution_append_witness :
  parse_mic_distribution example_float "1:0.25,1:0.75"
  = Ok (dict_set Req_dec_T 1 (3 / 4) [(1, 1 / 4)])
  /\ weight (dict_set Req_dec_T 1 (3 / 4) [(1, 1 / 4)]) 1 = 3 / 4
  /\ (forall mic, mic <> 1 ->
        weight (dict_set Req_dec_T 1 (3 / 4) [(1, 1 / 4)]) mic
        = weight [(1, 1 / 4)] mic).
Proof.
  apply (parse_mic_distribution_append example_float
           "1:0.25" "1:0.75" "1" "0.75" [(1, 1 / 4)] 1 (3 / 4)).
  - reflexivity.
  - cbn. intros H. repeat (destruct H as [H | H]; [discriminate H |]). exact H.
  - reflexivity.
  - reflexivity.
  - reflexivity.
Defined.
